(** * kubectl-multi: resource-type resolution and column extraction

    A shallow embedding of [pkg/util/formatting.go] and of the label
    formatter of [pkg/cmd/get/common.go].

    Conventions.
    - A Go [string] is a sequence of bytes: [String.string].
    - [int], [int64] and [time.Duration] are 64-bit: a [Z] with the
      wrap-around written out where the code does arithmetic.
    - A Go [map] that the code only indexes is an association list read
      with [lookup].  A Go [map] that the code ranges over is an
      association list whose order is the order in which that [range]
      visits the entries: Go leaves the order unspecified, so a statement
      that holds for every list holds for every run.
    - The Unicode tables behind [strings.ToLower] and [strings.EqualFold]
      and the layout parser [time.Parse] belong to the Go runtime; they
      are variables of the section, so every theorem holds whatever they
      compute.  The ASCII paths of the string functions are written out. *)

From Stdlib Require Import ZArith List String Ascii Bool Lia Permutation.
From Stdlib Require Import Sorted DecimalString PrimFloat.
Import ListNotations.
Local Open Scope string_scope.
Local Open Scope Z_scope.

Set Implicit Arguments.
Set Warnings "-register-all".

(** ** Bytes and strings (package [strings]) *)

Definition byte_of (c : ascii) : Z := Z.of_N (N_of_ascii c).
Definition ascii_of_byte (z : Z) : ascii := ascii_of_N (Z.to_N z).

(** [utf8.RuneSelf]: bytes below it are single-byte runes. *)
Definition RuneSelf : Z := 128.

Definition isUpperByte (c : ascii) : bool :=
  (byte_of "A" <=? byte_of c) && (byte_of c <=? byte_of "Z").

(** [c += 'a' - 'A'] on an upper-case ASCII byte. *)
Definition lowerByte (c : ascii) : ascii :=
  if isUpperByte c then ascii_of_byte (byte_of c + (byte_of "a" - byte_of "A"))
  else c.

Fixpoint isASCII (s : string) : bool :=
  match s with
  | EmptyString => true
  | String c s' => (byte_of c <? RuneSelf) && isASCII s'
  end.

Fixpoint lowerASCII (s : string) : string :=
  match s with
  | EmptyString => EmptyString
  | String c s' => String (lowerByte c) (lowerASCII s')
  end.

(** [strings.HasSuffix]. *)
Definition HasSuffix (s suffix : string) : bool :=
  let n := String.length s in
  let m := String.length suffix in
  (m <=? n)%nat && String.eqb (substring (n - m) m s) suffix.

(** [strings.Join]. *)
Definition Join (elems : list string) (sep : string) : string :=
  String.concat sep elems.

(** [strings.Split] for a one-byte separator: the pieces between the
    occurrences of [sep]; always at least one piece. *)
Fixpoint Split (s : string) (sep : ascii) : list string :=
  match s with
  | EmptyString => [EmptyString]
  | String c s' =>
      if Ascii.eqb c sep then EmptyString :: Split s' sep
      else match Split s' sep with
           | [] => [String c EmptyString]
           | p :: ps => String c p :: ps
           end
  end.

(** [fmt.Sprintf("%d", n)]. *)
Definition itoa (n : Z) : string := NilZero.string_of_int (Z.to_int n).

(** [fmt.Sprintf("%t", b)]. *)
Definition btoa (b : bool) : string := if b then "true" else "false".

(** [sort.Strings]: the ascending arrangement of the slice under Go's
    byte-wise string order.  That order is total and antisymmetric, so the
    sorted arrangement of a given multiset is unique; insertion computes
    it. *)
Fixpoint insert_sorted (x : string) (l : list string) : list string :=
  match l with
  | [] => [x]
  | y :: l' => if String.leb x y then x :: y :: l' else y :: insert_sorted x l'
  end.

Definition sort_Strings (l : list string) : list string :=
  fold_right insert_sorted [] l.

(** 64-bit two's complement wrap-around. *)
Definition wrap64 (z : Z) : Z := (z + 2 ^ 63) mod 2 ^ 64 - 2 ^ 63.

(** ** Durations (package [time]) *)

Module Duration.

Definition Nanosecond : Z := 1.
Definition Microsecond : Z := 1000.
Definition Millisecond : Z := 1000000.
Definition Second : Z := 1000000000.
Definition minDuration : Z := - 2 ^ 63.
Definition maxDuration : Z := 2 ^ 63 - 1.

Definition digit (v : Z) : ascii := ascii_of_byte (byte_of "0" + v mod 10).

(** [fmtInt]: the decimal digits of [v >= 0] put in front of [buf]. *)
Definition fmtInt (buf : string) (v : Z) : string :=
  NilZero.string_of_uint (N.to_uint (Z.to_N v)) ++ buf.

(** [fmtFrac]: [prec] low digits of [v] put in front of [buf], trailing
    zeros and a bare point left out; returns the rest of [v] too. *)
Fixpoint fmtFrac_loop (prec : nat) (buf : string) (v : Z) (print : bool)
  : string * Z * bool :=
  match prec with
  | O => (buf, v, print)
  | S prec' =>
      let d := v mod 10 in
      let print := print || negb (d =? 0) in
      let buf := if print then String (digit v) buf else buf in
      fmtFrac_loop prec' buf (v / 10) print
  end.

Definition fmtFrac (buf : string) (v : Z) (prec : nat) : string * Z :=
  let '(buf, v, print) := fmtFrac_loop prec buf v false in
  ((if print then String "." buf else buf), v).

(** [Duration.String] through [Duration.format]; the buffer is filled
    from its end, here by consing in front. *)
Definition format (d : Z) : string :=
  let u := Z.abs d in
  let neg := d <? 0 in
  let body :=
    if u <? Second then
      if u =? 0 then "0s"
      else
        let '(prec, unit) :=
          if u <? Microsecond then (0%nat, "ns")
          else if u <? Millisecond then
            (3%nat, String (ascii_of_byte 194) (String (ascii_of_byte 181) "s"))
          else (6%nat, "ms") in
        let '(w, u) := fmtFrac unit u prec in
        fmtInt w u
    else
      let '(w, u) := fmtFrac "s" u 9 in
      let w := fmtInt w (u mod 60) in
      let u := u / 60 in
      if 0 <? u then
        let w := fmtInt (String "m" w) (u mod 60) in
        let u := u / 60 in
        if 0 <? u then fmtInt (String "h" w) u else w
      else w in
  if neg then String "-" body else body.

Definition String_ (d : Z) : string := format d.

Definition lessThanHalf (x y : Z) : bool := x + x <? y.

(** [Duration.Round]. *)
Definition Round (d m : Z) : Z :=
  if m <=? 0 then d
  else
    let r := Z.rem d m in
    if d <? 0 then
      let r := - r in
      if lessThanHalf r m then wrap64 (d + r)
      else
        let d1 := wrap64 (d - m + r) in
        if d1 <? d then d1 else minDuration
    else
      if lessThanHalf r m then wrap64 (d - r)
      else
        let d1 := wrap64 (d + m - r) in
        if d <? d1 then d1 else maxDuration.

(** [Time.Sub] on instants counted in nanoseconds: the difference,
    saturated to the range of a [Duration]. *)
Definition Sub (t u : Z) : Z :=
  let d := t - u in
  if d <? minDuration then minDuration
  else if maxDuration <? d then maxDuration
  else d.

End Duration.

(** ** Maps read by key *)

Fixpoint lookup {A : Type} (k : string) (m : list (string * A)) : option A :=
  match m with
  | [] => None
  | (k', v) :: m' => if String.eqb k k' then Some v else lookup k m'
  end.

Definition keys {A : Type} (m : list (string * A)) : list string := map fst m.

(** ** Resource descriptors (packages [schema] and [metav1]) *)

Record GroupVersion := { gvGroup : string; gvVersion : string }.

Record GroupVersionResource :=
  { Group : string; Version : string; Resource : string }.

Definition WithResource (gv : GroupVersion) (resource : string)
  : GroupVersionResource :=
  {| Group := gvGroup gv; Version := gvVersion gv; Resource := resource |}.

Fixpoint countSlash (s : string) : nat :=
  match s with
  | EmptyString => O
  | String c s' => ((if Ascii.eqb c "/" then 1 else 0) + countSlash s')%nat
  end.

(** The parts of [s] before and after its first "/". *)
Fixpoint cutSlash (s : string) : string * string :=
  match s with
  | EmptyString => (EmptyString, EmptyString)
  | String c s' =>
      if Ascii.eqb c "/" then (EmptyString, s')
      else let '(a, b) := cutSlash s' in (String c a, b)
  end.

(** [schema.ParseGroupVersion]; [None] is its error. *)
Definition ParseGroupVersion (gv : string) : option GroupVersion :=
  if String.eqb gv "" || String.eqb gv "/" then
    Some {| gvGroup := ""; gvVersion := "" |}
  else
    match countSlash gv with
    | O => Some {| gvGroup := ""; gvVersion := gv |}
    | S O => let '(g, v) := cutSlash gv in Some {| gvGroup := g; gvVersion := v |}
    | _ => None
    end.

(** The fields of [metav1.APIResource] that the resolver reads. *)
Record APIResource :=
  { Name : string;
    SingularName : string;
    Namespaced : bool;
    ShortNames : list string }.

Record APIResourceList :=
  { GroupVersion_ : string; APIResources : list APIResource }.

(** What [ServerGroupsAndResources] hands back: the resource lists and
    the error, [None] for [nil]. *)
Record DiscoveryInterface :=
  { ServerGroupsAndResources : list APIResourceList * option string }.

(** ** Static tables *)

(** The [aliases] map of [normalizeResourceType]. *)
Definition aliases : list (string * string) :=
  [ ("po", "pods");
    ("svc", "services");
    ("no", "nodes");
    ("ns", "namespaces");
    ("pv", "persistentvolumes");
    ("pvc", "persistentvolumeclaims");
    ("cm", "configmaps");
    ("deploy", "deployments");
    ("rs", "replicasets");
    ("ds", "daemonsets");
    ("sts", "statefulsets");
    ("job", "jobs");
    ("cj", "cronjobs");
    ("ing", "ingresses");
    ("ep", "endpoints");
    ("sa", "serviceaccounts") ].

Definition gvr (g v r : string) : GroupVersionResource :=
  {| Group := g; Version := v; Resource := r |}.

(** The [defaults] map of [getDefaultGVR]. *)
Definition defaults : list (string * GroupVersionResource) :=
  [ ("pods", gvr "" "v1" "pods");
    ("services", gvr "" "v1" "services");
    ("nodes", gvr "" "v1" "nodes");
    ("namespaces", gvr "" "v1" "namespaces");
    ("persistentvolumes", gvr "" "v1" "persistentvolumes");
    ("persistentvolumeclaims", gvr "" "v1" "persistentvolumeclaims");
    ("configmaps", gvr "" "v1" "configmaps");
    ("secrets", gvr "" "v1" "secrets");
    ("deployments", gvr "apps" "v1" "deployments");
    ("replicasets", gvr "apps" "v1" "replicasets");
    ("daemonsets", gvr "apps" "v1" "daemonsets");
    ("statefulsets", gvr "apps" "v1" "statefulsets");
    ("jobs", gvr "batch" "v1" "jobs");
    ("cronjobs", gvr "batch" "v1" "cronjobs");
    ("ingresses", gvr "networking.k8s.io" "v1" "ingresses");
    ("endpoints", gvr "" "v1" "endpoints");
    ("serviceaccounts", gvr "" "v1" "serviceaccounts") ].

(** [ColName] is the field [Name] of the Go struct; [Name] is taken by
    [APIResource]. *)
Record ColumnDefinition :=
  { ColName : string; JSONPath : string; DefaultValue : string }.

Definition col (n p d : string) : ColumnDefinition :=
  {| ColName := n; JSONPath := p; DefaultValue := d |}.

Definition ageColumn : ColumnDefinition :=
  col "AGE" "metadata.creationTimestamp" "<unknown>".

(** The [columns] map of [GetResourceColumns]. *)
Definition columns : list (string * list ColumnDefinition) :=
  [ ("pods",
      [ col "READY" "status.containerStatuses" "<unknown>";
        col "STATUS" "status.phase" "<unknown>";
        col "RESTARTS" "status.containerStatuses" "<unknown>";
        col "AGE" "metadata.creationTimestamp" "<unknown>" ]);
    ("services",
      [ col "TYPE" "spec.type" "ClusterIP";
        col "CLUSTER-IP" "spec.clusterIP" "<none>";
        col "EXTERNAL-IP" "status.loadBalancer.ingress" "<none>";
        col "PORT(S)" "spec.ports" "<none>";
        col "AGE" "metadata.creationTimestamp" "<unknown>" ]);
    ("deployments",
      [ col "READY" "status.readyReplicas" "0";
        col "UP-TO-DATE" "status.updatedReplicas" "0";
        col "AVAILABLE" "status.availableReplicas" "0";
        col "AGE" "metadata.creationTimestamp" "<unknown>" ]);
    ("replicasets",
      [ col "DESIRED" "spec.replicas" "0";
        col "CURRENT" "status.replicas" "0";
        col "READY" "status.readyReplicas" "0";
        col "AGE" "metadata.creationTimestamp" "<unknown>" ]);
    ("daemonsets",
      [ col "DESIRED" "status.desiredNumberScheduled" "0";
        col "CURRENT" "status.currentNumberScheduled" "0";
        col "READY" "status.numberReady" "0";
        col "UP-TO-DATE" "status.updatedNumberScheduled" "0";
        col "AVAILABLE" "status.numberAvailable" "0";
        col "NODE SELECTOR" "spec.template.spec.nodeSelector" "<none>";
        col "AGE" "metadata.creationTimestamp" "<unknown>" ]);
    ("statefulsets",
      [ col "READY" "status.readyReplicas" "0";
        col "AGE" "metadata.creationTimestamp" "<unknown>" ]);
    ("jobs",
      [ col "COMPLETIONS" "status" "<none>";
        col "DURATION" "status.startTime" "<unknown>";
        col "AGE" "metadata.creationTimestamp" "<unknown>" ]);
    ("cronjobs",
      [ col "SCHEDULE" "spec.schedule" "<none>";
        col "SUSPEND" "spec.suspend" "False";
        col "ACTIVE" "status.active" "0";
        col "LAST SCHEDULE" "status.lastScheduleTime" "<none>";
        col "AGE" "metadata.creationTimestamp" "<unknown>" ]);
    ("configmaps",
      [ col "DATA" "data" "0";
        col "AGE" "metadata.creationTimestamp" "<unknown>" ]);
    ("secrets",
      [ col "TYPE" "type" "Opaque";
        col "DATA" "data" "0";
        col "AGE" "metadata.creationTimestamp" "<unknown>" ]);
    ("persistentvolumes",
      [ col "CAPACITY" "spec.capacity" "<unknown>";
        col "ACCESS MODES" "spec.accessModes" "<unknown>";
        col "RECLAIM POLICY" "spec.persistentVolumeReclaimPolicy" "<unknown>";
        col "STATUS" "status.phase" "<unknown>";
        col "CLAIM" "spec.claimRef" "<none>";
        col "STORAGE CLASS" "spec.storageClassName" "<none>";
        col "REASON" "status.reason" "<none>";
        col "AGE" "metadata.creationTimestamp" "<unknown>" ]);
    ("persistentvolumeclaims",
      [ col "STATUS" "status.phase" "<unknown>";
        col "VOLUME" "spec.volumeName" "<none>";
        col "CAPACITY" "status.capacity" "<unknown>";
        col "ACCESS MODES" "status.accessModes" "<unknown>";
        col "STORAGE CLASS" "spec.storageClassName" "<none>";
        col "AGE" "metadata.creationTimestamp" "<unknown>" ]);
    ("ingresses",
      [ col "HOSTS" "spec.rules" "<none>";
        col "ADDRESS" "status.loadBalancer.ingress" "<none>";
        col "PORTS" "spec.rules" "<none>";
        col "AGE" "metadata.creationTimestamp" "<unknown>" ]);
    ("endpoints",
      [ col "ENDPOINTS" "subsets" "<none>";
        col "AGE" "metadata.creationTimestamp" "<unknown>" ]);
    ("serviceaccounts",
      [ col "SECRETS" "secrets" "0";
        col "AGE" "metadata.creationTimestamp" "<unknown>" ]);
    ("resourcequotas",
      [ col "AGE" "metadata.creationTimestamp" "<unknown>";
        col "HARD" "status.hard" "<none>";
        col "USED" "status.used" "<none>" ]);
    ("limitranges",
      [ col "CREATED AT" "metadata.creationTimestamp" "<unknown>" ]);
    ("networkpolicies",
      [ col "POD-SELECTOR" "spec.podSelector" "<none>";
        col "POLICY-TYPES" "spec.policyTypes" "<none>";
        col "AGE" "metadata.creationTimestamp" "<unknown>" ]);
    ("roles",
      [ col "CREATED-AT" "metadata.creationTimestamp" "<unknown>" ]);
    ("storageclasses",
      [ col "PROVISIONER" "provisioner" "<none>";
        col "RECLAIMPOLICY" "reclaimPolicy" "Delete";
        col "VOLUMEBINDINGMODE" "volumeBindingMode" "Immediate";
        col "ALLOWVOLUMEEXPANSION" "allowVolumeExpansion" "false";
        col "AGE" "metadata.creationTimestamp" "<unknown>" ]);
    ("events",
      [ col "LAST SEEN" "lastTimestamp" "<unknown>";
        col "TYPE" "type" "<unknown>";
        col "REASON" "reason" "<unknown>";
        col "OBJECT" "" "<unknown>";
        col "MESSAGE" "message" "<unknown>" ]) ].

(** ** Records (package [unstructured]) *)

(** A decoded JSON value: what a [map[string]interface{}] of an
    [unstructured.Unstructured] can hold.  A [VMap] lists its entries in
    the order a [range] over it visits them. *)
Inductive value : Type :=
| VNil
| VBool (b : bool)
| VInt64 (n : Z)
| VFloat64 (f : float)
| VString (s : string)
| VSlice (l : list value)
| VMap (m : list (string * value)).

(** [obj.Object]. *)
Definition object := list (string * value).

(** The [(value, found, err)] triple of the nested accessors: [Found v]
    is [(v, true, nil)], [Absent] is [(zero, false, nil)] and [Mismatch]
    is [(zero, false, err)] with [err] the accessor's type error. *)
Inductive nested (A : Type) : Type :=
| Found (a : A)
| Absent
| Mismatch.
Arguments Absent {A}.
Arguments Mismatch {A}.

Definition found {A : Type} (r : nested A) : bool :=
  match r with Found _ => true | _ => false end.

Definition failed {A : Type} (r : nested A) : bool :=
  match r with Mismatch => true | _ => false end.

(** [unstructured.NestedFieldNoCopy]. *)
Fixpoint nestedFrom (val : value) (fields : list string) : nested value :=
  match fields with
  | [] => Found val
  | field :: fields' =>
      match val with
      | VNil => Absent
      | VMap m =>
          match lookup field m with
          | Some v => nestedFrom v fields'
          | None => Absent
          end
      | _ => Mismatch
      end
  end.

Definition NestedFieldNoCopy (obj : object) (fields : list string)
  : nested value :=
  nestedFrom (VMap obj) fields.

Definition typed {A : Type} (cast : value -> option A) (r : nested value)
  : nested A :=
  match r with
  | Found v => match cast v with Some a => Found a | None => Mismatch end
  | Absent => Absent
  | Mismatch => Mismatch
  end.

Definition asString (v : value) : option string :=
  match v with VString s => Some s | _ => None end.
Definition asBool (v : value) : option bool :=
  match v with VBool b => Some b | _ => None end.
Definition asInt64 (v : value) : option Z :=
  match v with VInt64 n => Some n | _ => None end.
Definition asSlice (v : value) : option (list value) :=
  match v with VSlice l => Some l | _ => None end.
Definition asMap (v : value) : option object :=
  match v with VMap m => Some m | _ => None end.

(** Every element must be a string, as in [NestedStringSlice]. *)
Fixpoint asStrings (l : list value) : option (list string) :=
  match l with
  | [] => Some []
  | VString s :: l' =>
      match asStrings l' with Some ss => Some (s :: ss) | None => None end
  | _ :: _ => None
  end.
Definition asStringSlice (v : value) : option (list string) :=
  match v with VSlice l => asStrings l | _ => None end.

Definition NestedString (obj : object) (fields : list string) :=
  typed asString (NestedFieldNoCopy obj fields).
Definition NestedBool (obj : object) (fields : list string) :=
  typed asBool (NestedFieldNoCopy obj fields).
Definition NestedInt64 (obj : object) (fields : list string) :=
  typed asInt64 (NestedFieldNoCopy obj fields).
Definition NestedSlice (obj : object) (fields : list string) :=
  typed asSlice (NestedFieldNoCopy obj fields).
Definition NestedMap (obj : object) (fields : list string) :=
  typed asMap (NestedFieldNoCopy obj fields).
Definition NestedStringSlice (obj : object) (fields : list string) :=
  typed asStringSlice (NestedFieldNoCopy obj fields).

(** The builtin [append(s, x)]. *)
Definition append_elem {A : Type} (s : list A) (x : A) : list A :=
  (s ++ [x])%list.

(** [len] of a slice or map, as an [int]. *)
Definition len {A : Type} (l : list A) : Z := Z.of_nat (List.length l).

(** ** The resolver and the registry *)

Section Resolver.

(** [strings.Map(unicode.ToLower, s)]: the path [strings.ToLower] takes
    when [s] has a byte outside ASCII. *)
Variable unicode_ToLower : string -> string.

(** The [hasUnicode] part of [strings.EqualFold], entered with what is
    left of both strings at the first byte outside ASCII. *)
Variable unicode_EqualFold : string -> string -> bool.

(** [strings.ToLower]. *)
Definition ToLower (s : string) : string :=
  if isASCII s then lowerASCII s else unicode_ToLower s.

(** [strings.EqualFold]. *)
Fixpoint EqualFold (s t : string) : bool :=
  match s, t with
  | String sr s', String tr t' =>
      if RuneSelf <=? Z.lor (byte_of sr) (byte_of tr) then
        unicode_EqualFold s t
      else if Ascii.eqb tr sr then EqualFold s' t'
      else
        let '(sr, tr) := if byte_of tr <? byte_of sr then (tr, sr) else (sr, tr) in
        if isUpperByte sr
           && (byte_of tr =? byte_of sr + byte_of "a" - byte_of "A")
        then EqualFold s' t'
        else false
  | EmptyString, EmptyString => true
  | _, _ => false
  end.

Definition normalizeResourceType (resourceType : string) : string :=
  match lookup (ToLower resourceType) aliases with
  | Some normalized => normalized
  | None =>
      let lower := ToLower resourceType in
      if negb (HasSuffix lower "s") then lower ++ "s" else lower
  end.

Definition matchesResourceType (apiResource : APIResource)
           (resourceType : string) : bool :=
  if EqualFold (Name apiResource) resourceType then true
  else if EqualFold (SingularName apiResource) resourceType then true
  else existsb (fun shortName => EqualFold shortName resourceType)
               (ShortNames apiResource).

Definition getDefaultGVR (resourceType : string) : GroupVersionResource :=
  match lookup resourceType defaults with
  | Some d => d
  | None => gvr "" "v1" resourceType
  end.

(** The inner loop of [DiscoverGVR]: the first resource of one list
    that matches. *)
Fixpoint scanResources (gv : GroupVersion) (rs : list APIResource)
         (normalizedType : string) : option (GroupVersionResource * bool) :=
  match rs with
  | [] => None
  | apiResource :: rs' =>
      if matchesResourceType apiResource normalizedType
      then Some (WithResource gv (Name apiResource), Namespaced apiResource)
      else scanResources gv rs' normalizedType
  end.

(** The outer loop: a list whose group-version does not parse is passed
    over. *)
Fixpoint scanLists (ls : list APIResourceList) (normalizedType : string)
  : option (GroupVersionResource * bool) :=
  match ls with
  | [] => None
  | apiResourceList :: ls' =>
      match ParseGroupVersion (GroupVersion_ apiResourceList) with
      | None => scanLists ls' normalizedType
      | Some gv =>
          match scanResources gv (APIResources apiResourceList) normalizedType with
          | Some r => Some r
          | None => scanLists ls' normalizedType
          end
      end
  end.

(** [DiscoverGVR] returns [(gvr, namespaced, err)]. *)
Definition DiscoverGVR (discoveryClient : DiscoveryInterface)
           (resourceType : string)
  : GroupVersionResource * bool * option string :=
  let '(apiResourceLists, err) := ServerGroupsAndResources discoveryClient in
  match err with
  | Some e =>
      (gvr "" "" "", false, Some ("failed to discover API resources: " ++ e))
  | None =>
      let normalizedType := normalizeResourceType resourceType in
      match scanLists apiResourceLists normalizedType with
      | Some (g, namespaced) => (g, namespaced, None)
      | None => (getDefaultGVR normalizedType, true, None)
      end
  end.

Definition GetResourceColumns (resourceType : string)
  : list ColumnDefinition :=
  match lookup (ToLower resourceType) columns with
  | Some cols => cols
  | None => [ col "AGE" "metadata.creationTimestamp" "<unknown>" ]
  end.

End Resolver.

(** ** The typed service helper *)

Record LoadBalancerIngress := { IP : string; Hostname : string }.

(** The fields of [corev1.Service] that [GetServiceExternalIP] reads. *)
Record Service :=
  { ExternalIPs : list string;          (* svc.Spec.ExternalIPs *)
    Ingress : list LoadBalancerIngress  (* svc.Status.LoadBalancer.Ingress *) }.

Definition GetServiceExternalIP (svc : Service) : string :=
  let fromIngress :=
    match Ingress svc with
    | ingress :: _ =>
        if negb (String.eqb (IP ingress) "") then Some (IP ingress)
        else if negb (String.eqb (Hostname ingress) "") then Some (Hostname ingress)
        else None
    | [] => None
    end in
  match fromIngress with
  | Some s => s
  | None =>
      if 0 <? len (ExternalIPs svc) then Join (ExternalIPs svc) ","
      else "<none>"
  end.

(** ** Label maps *)

(** [util.FormatLabels]; [labels] in the order the [range] visits it. *)
Definition FormatLabels (labels : list (string * string)) : string :=
  if len labels =? 0 then "<none>"
  else
    let items :=
      fold_left (fun items kv => append_elem items (fst kv ++ "=" ++ snd kv)) labels [] in
    Join (sort_Strings items) ",".

(** [formatLabels] of [pkg/cmd/get/common.go]; [labels] in the order the
    [range] visits it. *)
Definition formatLabels (labels : list (string * string)) : string :=
  if len labels =? 0 then "<none>"
  else
    fold_left
      (fun result kv =>
         let result := if negb (String.eqb result "") then result ++ "," else result in
         result ++ (fst kv ++ "=" ++ snd kv))
      labels "".

(** ** The extraction engine *)

(** What an extraction reads besides the record: the wall clock, in
    nanoseconds, and the order in which a [range] visits the two-entry
    port set of [extractIngressPortsValue]. *)
Record World := { now : Z; rangeReversed : bool }.

Definition RFC3339 : string := "2006-01-02T15:04:05Z07:00".

Section Extraction.

(** [time.Parse layout value]: the instant in nanoseconds, [None] for
    an error. *)
Variable time_Parse : string -> string -> option Z.

(** [time.Since]. *)
Definition Since (w : World) (t : Z) : Z := Duration.Sub (now w) t.

Definition extractReadyValue (obj : object) : string :=
  match NestedSlice obj ["status"; "containerStatuses"] with
  | Found containerStatuses =>
      let totalCount := len containerStatuses in
      let readyCount :=
        fold_left
          (fun readyCount status =>
             match status with
             | VMap statusMap =>
                 match lookup "ready" statusMap with
                 | Some (VBool true) => readyCount + 1
                 | _ => readyCount
                 end
             | _ => readyCount
             end)
          containerStatuses 0 in
      itoa readyCount ++ "/" ++ itoa totalCount
  | _ => "0/0"
  end.

Definition extractStatusValue (obj : object) : string :=
  match NestedString obj ["status"; "phase"] with
  | Found phase => phase
  | _ => "<unknown>"
  end.

Definition extractRestartsValue (obj : object) : string :=
  match NestedSlice obj ["status"; "containerStatuses"] with
  | Found containerStatuses =>
      let totalRestarts :=
        fold_left
          (fun totalRestarts status =>
             match status with
             | VMap statusMap =>
                 match lookup "restartCount" statusMap with
                 | Some (VInt64 count) => wrap64 (totalRestarts + count)
                 | _ => totalRestarts
                 end
             | _ => totalRestarts
             end)
          containerStatuses 0 in
      itoa totalRestarts
  | _ => "0"
  end.

Definition extractTypeValue (obj : object) : string :=
  match NestedString obj ["spec"; "type"] with
  | Found svcType => svcType
  | _ => "ClusterIP"
  end.

Definition extractClusterIPValue (obj : object) : string :=
  match NestedString obj ["spec"; "clusterIP"] with
  | Found clusterIP => clusterIP
  | _ => "<none>"
  end.

(** One turn of the loop of [extractExternalIPValue]. *)
Definition appendIngress (ips : list string) (ing : value) : list string :=
  match ing with
  | VMap ingMap =>
      match lookup "ip" ingMap with
      | Some ip =>
          match ip with VString ipStr => append_elem ips ipStr | _ => ips end
      | None =>
          match lookup "hostname" ingMap with
          | Some hostname =>
              match hostname with VString hostStr => append_elem ips hostStr | _ => ips end
          | None => ips
          end
      end
  | _ => ips
  end.

Definition extractExternalIPValue (obj : object) : string :=
  match NestedSlice obj ["status"; "loadBalancer"; "ingress"] with
  | Found ingress =>
      if len ingress =? 0 then "<none>"
      else
        let ips := fold_left appendIngress ingress [] in
        if 0 <? len ips then Join ips "," else "<pending>"
  | _ => "<none>"
  end.

(** One turn of the loop of [extractPortsValue]. *)
Definition appendPort (portStrings : list string) (port : value)
  : list string :=
  match port with
  | VMap portMap =>
      match lookup "port" portMap with
      | Some (VInt64 p) => append_elem portStrings (itoa p)
      | _ => portStrings
      end
  | _ => portStrings
  end.

Definition extractPortsValue (obj : object) : string :=
  match NestedSlice obj ["spec"; "ports"] with
  | Found ports =>
      if len ports =? 0 then "<none>"
      else
        let portStrings := fold_left appendPort ports [] in
        Join portStrings ","
  | _ => "<none>"
  end.

(** The shape shared by the replica counters. *)
Definition int64Or (obj : object) (fields : list string) (dflt : string)
  : string :=
  match NestedInt64 obj fields with
  | Found n => itoa n
  | _ => dflt
  end.

Definition extractUpToDateValue (obj : object) : string :=
  int64Or obj ["status"; "updatedReplicas"] "0".

Definition extractAvailableValue (obj : object) : string :=
  int64Or obj ["status"; "availableReplicas"] "0".

Definition extractDesiredValue (obj : object) : string :=
  int64Or obj ["spec"; "replicas"] "0".

Definition extractCurrentValue (obj : object) : string :=
  int64Or obj ["status"; "replicas"] "0".

Definition extractCompletionsValue (obj : object) : string :=
  match NestedInt64 obj ["status"; "succeeded"] with
  | Found succeeded =>
      match NestedInt64 obj ["spec"; "completions"] with
      | Found completions => itoa succeeded ++ "/" ++ itoa completions
      | _ => itoa succeeded ++ "/1"
      end
  | _ => "<none>"
  end.

Definition extractDurationValue (w : World) (obj : object) : string :=
  match NestedString obj ["status"; "startTime"] with
  | Found startTime =>
      match time_Parse RFC3339 startTime with
      | None => "<unknown>"
      | Some start =>
          match NestedString obj ["status"; "completionTime"] with
          | Found completionTime =>
              match time_Parse RFC3339 completionTime with
              | None => "<unknown>"
              | Some end_ => Duration.String_ (Duration.Sub end_ start)
              end
          | _ => Duration.String_ (Duration.Sub (now w) start)
          end
      end
  | _ => "<unknown>"
  end.

Definition extractDataCountValue (obj : object) : string :=
  let count := 0 in
  let count :=
    match NestedMap obj ["data"] with
    | Found data => count + len data
    | _ => count
    end in
  let count :=
    match NestedMap obj ["binaryData"] with
    | Found binaryData => count + len binaryData
    | _ => count
    end in
  itoa count.

(** The loop of [extractCapacityValue]: it returns at the first entry
    that carries a string. *)
Fixpoint firstCapacity (capacity : list (string * value)) : option string :=
  match capacity with
  | [] => None
  | (_, v) :: capacity' =>
      match v with
      | VString val => Some val
      | VMap val =>
          match lookup "string" val with
          | Some (VString str) => Some str
          | _ => firstCapacity capacity'
          end
      | _ => firstCapacity capacity'
      end
  end.

Definition extractCapacityValue (obj : object) : string :=
  let r :=
    match NestedMap obj ["spec"; "capacity"] with
    | Found capacity => Found capacity
    | _ => NestedMap obj ["status"; "capacity"]
    end in
  match r with
  | Found capacity =>
      if len capacity =? 0 then "<unknown>"
      else match firstCapacity capacity with
           | Some s => s
           | None => "<unknown>"
           end
  | _ => "<unknown>"
  end.

Definition extractAccessModesValue (obj : object) : string :=
  let r :=
    match NestedStringSlice obj ["spec"; "accessModes"] with
    | Found modes => Found modes
    | _ => NestedStringSlice obj ["status"; "accessModes"]
    end in
  match r with
  | Found modes =>
      if len modes =? 0 then "<unknown>" else Join modes ","
  | _ => "<unknown>"
  end.

Definition extractClaimValue (obj : object) : string :=
  match NestedMap obj ["spec"; "claimRef"] with
  | Found claimRef =>
      match NestedString claimRef ["name"], NestedString claimRef ["namespace"] with
      | Found name, Found namespace => namespace ++ "/" ++ name
      | Found name, _ => name
      | _, _ => "<none>"
      end
  | _ => "<none>"
  end.

Definition extractStorageClassValue (obj : object) : string :=
  match NestedString obj ["spec"; "storageClassName"] with
  | Found sc => sc
  | _ => "<none>"
  end.

Definition extractHostsValue (obj : object) : string :=
  match NestedSlice obj ["spec"; "rules"] with
  | Found rules =>
      if len rules =? 0 then "<none>"
      else
        let hosts :=
          fold_left
            (fun hosts rule =>
               match rule with
               | VMap ruleMap =>
                   match lookup "host" ruleMap with
                   | Some (VString hostStr) =>
                       if negb (String.eqb hostStr "") then append_elem hosts hostStr
                       else hosts
                   | _ => hosts
                   end
               | _ => hosts
               end)
            rules [] in
        if 0 <? len hosts then Join hosts "," else "<none>"
  | _ => "<none>"
  end.

Definition extractAddressValue (obj : object) : string :=
  extractExternalIPValue obj.

(** [portSet[k] = struct{}{}] on a set kept as the list of its keys. *)
Definition setKey (portSet : list string) (k : string) : list string :=
  if existsb (String.eqb k) portSet then portSet else append_elem portSet k.

Definition extractIngressPortsValue (w : World) (obj : object) : string :=
  match NestedSlice obj ["spec"; "rules"] with
  | Found rules =>
      if len rules =? 0 then "<none>"
      else
        let portSet :=
          fold_left
            (fun portSet rule =>
               match rule with
               | VMap ruleMap =>
                   match lookup "http" ruleMap with
                   | Some (VMap httpMap) =>
                       match lookup "paths" httpMap with
                       | Some (VSlice pathsSlice) =>
                           fold_left (fun portSet _ => setKey portSet "80")
                                     pathsSlice portSet
                       | _ => portSet
                       end
                   | _ => portSet
                   end
               | _ => portSet
               end)
            rules [] in
        let portSet :=
          match NestedSlice obj ["spec"; "tls"] with
          | Found tls => if 0 <? len tls then setKey portSet "443" else portSet
          | _ => portSet
          end in
        if 0 <? len portSet then
          let ports := if rangeReversed w then rev portSet else portSet in
          Join ports ","
        else "<none>"
  | _ => "<none>"
  end.

(** The innermost loop of [extractEndpointsValue]. *)
Definition appendPorts (ipStr : string) (ports : list value)
           (endpoints : list string) : list string :=
  fold_left
    (fun endpoints port =>
       match port with
       | VMap portMap =>
           match lookup "port" portMap with
           | Some (VInt64 p) => append_elem endpoints (ipStr ++ ":" ++ itoa p)
           | _ => endpoints
           end
       | _ => endpoints
       end)
    ports endpoints.

Definition appendAddresses (addresses ports : list value)
           (endpoints : list string) : list string :=
  fold_left
    (fun endpoints addr =>
       match addr with
       | VMap addrMap =>
           match lookup "ip" addrMap with
           | Some (VString ipStr) => appendPorts ipStr ports endpoints
           | _ => endpoints
           end
       | _ => endpoints
       end)
    addresses endpoints.

Definition extractEndpointsValue (obj : object) : string :=
  match NestedSlice obj ["subsets"] with
  | Found subsets =>
      if len subsets =? 0 then "<none>"
      else
        let endpoints :=
          fold_left
            (fun endpoints subset =>
               match subset with
               | VMap subsetMap =>
                   match NestedSlice subsetMap ["addresses"],
                         NestedSlice subsetMap ["ports"] with
                   | Found addresses, Found ports =>
                       if (0 <? len addresses) && (0 <? len ports)
                       then appendAddresses addresses ports endpoints
                       else endpoints
                   | _, _ => endpoints
                   end
               | _ => endpoints
               end)
            subsets [] in
        if 0 <? len endpoints then Join endpoints "," else "<none>"
  | _ => "<none>"
  end.

Definition extractSecretsValue (obj : object) : string :=
  match NestedSlice obj ["secrets"] with
  | Found secrets => itoa (len secrets)
  | _ => "0"
  end.

Definition formatResourceLimits (limits : object) (found : bool) : string :=
  if negb found || (len limits =? 0) then "<none>"
  else
    let parts :=
      fold_left
        (fun parts kv =>
           let '(key, value) := kv in
           match value with
           | VString val => append_elem parts (key ++ ":" ++ val)
           | VMap val =>
               match lookup "string" val with
               | Some (VString str) => append_elem parts (key ++ ":" ++ str)
               | _ => parts
               end
           | _ => parts
           end)
        limits [] in
    if 0 <? len parts then Join parts "," else "<none>".

Definition extractHardValue (obj : object) : string :=
  match NestedMap obj ["status"; "hard"] with
  | Found hard => formatResourceLimits hard true
  | _ => formatResourceLimits [] false
  end.

Definition extractUsedValue (obj : object) : string :=
  match NestedMap obj ["status"; "used"] with
  | Found used => formatResourceLimits used true
  | _ => formatResourceLimits [] false
  end.

(** The loop shared by the two selector columns. *)
Definition selectorPairs (selector : object) : list string :=
  fold_left
    (fun labels kv =>
       let '(k, v) := kv in
       match v with
       | VString val => append_elem labels (k ++ "=" ++ val)
       | _ => labels
       end)
    selector [].

Definition extractPodSelectorValue (obj : object) : string :=
  match NestedMap obj ["spec"; "podSelector"; "matchLabels"] with
  | Found selector =>
      if len selector =? 0 then "<none>"
      else
        let labels := selectorPairs selector in
        if 0 <? len labels then Join labels "," else "<none>"
  | _ => "<none>"
  end.

Definition extractPolicyTypesValue (obj : object) : string :=
  match NestedStringSlice obj ["spec"; "policyTypes"] with
  | Found types => if len types =? 0 then "<none>" else Join types ","
  | _ => "<none>"
  end.

Definition extractLastSeenValue (w : World) (obj : object) : string :=
  let timestamp :=
    match NestedString obj ["lastTimestamp"] with
    | Found lastTimestamp => Some lastTimestamp
    | _ =>
        match NestedString obj ["firstTimestamp"] with
        | Found firstTimestamp => Some firstTimestamp
        | _ => None
        end
    end in
  match timestamp with
  | None => "<unknown>"
  | Some timestamp =>
      match time_Parse RFC3339 timestamp with
      | None => "<unknown>"
      | Some t =>
          Duration.String_ (Duration.Round (Since w t) Duration.Second) ++ " ago"
      end
  end.

Definition extractObjectValue (obj : object) : string :=
  match NestedString obj ["involvedObject"; "kind"],
        NestedString obj ["involvedObject"; "name"] with
  | Found kind, Found name => kind ++ "/" ++ name
  | _, _ => "<unknown>"
  end.

Definition extractNodeSelectorValue (obj : object) : string :=
  match NestedMap obj ["spec"; "template"; "spec"; "nodeSelector"] with
  | Found selector =>
      if len selector =? 0 then "<none>"
      else
        let selectors := selectorPairs selector in
        if 0 <? len selectors then Join selectors "," else "<none>"
  | _ => "<none>"
  end.

Definition extractAllowVolumeExpansionValue (obj : object) : string :=
  match NestedBool obj ["allowVolumeExpansion"] with
  | Found allow => btoa allow
  | _ => "false"
  end.

Definition extractScheduleValue (obj : object) : string :=
  match NestedString obj ["spec"; "schedule"] with
  | Found schedule => schedule
  | _ => "<none>"
  end.

Definition extractSuspendValue (obj : object) : string :=
  match NestedBool obj ["spec"; "suspend"] with
  | Found suspend => btoa suspend
  | _ => "False"
  end.

Definition extractActiveValue (obj : object) : string :=
  match NestedSlice obj ["status"; "active"] with
  | Found active => itoa (len active)
  | _ => "0"
  end.

Definition extractLastScheduleValue (w : World) (obj : object) : string :=
  match NestedString obj ["status"; "lastScheduleTime"] with
  | Found lastSchedule =>
      match time_Parse RFC3339 lastSchedule with
      | None => "<none>"
      | Some t =>
          Duration.String_ (Duration.Round (Since w t) Duration.Second) ++ " ago"
      end
  | _ => "<none>"
  end.

Definition extractCreatedAtValue (w : World) (obj : object) : string :=
  match NestedString obj ["metadata"; "creationTimestamp"] with
  | Found created =>
      match time_Parse RFC3339 created with
      | None => "<unknown>"
      | Some t => Duration.String_ (Since w t)
      end
  | _ => "<unknown>"
  end.

(** The [switch column.Name] of [ExtractColumnValue]: the extractor of
    the case that [name] selects, [None] when no case does. *)
Definition specializedExtractor (name : string)
  : option (World -> object -> string) :=
  let pure (f : object -> string) := Some (fun (_ : World) => f) in
  if String.eqb name "READY" then pure extractReadyValue
  else if String.eqb name "STATUS" then pure extractStatusValue
  else if String.eqb name "RESTARTS" then pure extractRestartsValue
  else if String.eqb name "TYPE" then pure extractTypeValue
  else if String.eqb name "CLUSTER-IP" then pure extractClusterIPValue
  else if String.eqb name "EXTERNAL-IP" then pure extractExternalIPValue
  else if String.eqb name "PORT(S)" then pure extractPortsValue
  else if String.eqb name "UP-TO-DATE" then pure extractUpToDateValue
  else if String.eqb name "AVAILABLE" then pure extractAvailableValue
  else if String.eqb name "DESIRED" then pure extractDesiredValue
  else if String.eqb name "CURRENT" then pure extractCurrentValue
  else if String.eqb name "COMPLETIONS" then pure extractCompletionsValue
  else if String.eqb name "DURATION" then Some extractDurationValue
  else if String.eqb name "DATA" then pure extractDataCountValue
  else if String.eqb name "CAPACITY" then pure extractCapacityValue
  else if String.eqb name "ACCESS MODES" then pure extractAccessModesValue
  else if String.eqb name "CLAIM" then pure extractClaimValue
  else if String.eqb name "STORAGE CLASS" then pure extractStorageClassValue
  else if String.eqb name "HOSTS" then pure extractHostsValue
  else if String.eqb name "ADDRESS" then pure extractAddressValue
  else if String.eqb name "PORTS" then Some extractIngressPortsValue
  else if String.eqb name "ENDPOINTS" then pure extractEndpointsValue
  else if String.eqb name "SECRETS" then pure extractSecretsValue
  else if String.eqb name "HARD" then pure extractHardValue
  else if String.eqb name "USED" then pure extractUsedValue
  else if String.eqb name "POD-SELECTOR" then pure extractPodSelectorValue
  else if String.eqb name "POLICY-TYPES" then pure extractPolicyTypesValue
  else if String.eqb name "LAST SEEN" then Some extractLastSeenValue
  else if String.eqb name "OBJECT" then pure extractObjectValue
  else if String.eqb name "NODE SELECTOR" then pure extractNodeSelectorValue
  else if String.eqb name "ALLOWVOLUMEEXPANSION"
    then pure extractAllowVolumeExpansionValue
  else if String.eqb name "SCHEDULE" then pure extractScheduleValue
  else if String.eqb name "SUSPEND" then pure extractSuspendValue
  else if String.eqb name "ACTIVE" then pure extractActiveValue
  else if String.eqb name "LAST SCHEDULE" then Some extractLastScheduleValue
  else if String.eqb name "CREATED AT" || String.eqb name "CREATED-AT"
    then Some extractCreatedAtValue
  else None.

Definition ExtractColumnValue (w : World) (obj : object)
           (column : ColumnDefinition) : string :=
  if String.eqb (JSONPath column) "" then DefaultValue column
  else
    match specializedExtractor (ColName column) with
    | Some extract => extract w obj
    | None =>
        (* [if err != nil || !found] *)
        match NestedString obj (Split (JSONPath column) ".") with
        | Found val => val
        | Absent | Mismatch => DefaultValue column
        end
    end.

End Extraction.

(** ** The typed node, pod, service and volume helpers *)

(** [strings.HasPrefix] and [strings.TrimPrefix]. *)
Definition HasPrefix (s prefix : string) : bool := String.prefix prefix s.

Definition TrimPrefix (s prefix : string) : string :=
  if HasPrefix s prefix
  then substring (String.length prefix)
                 (String.length s - String.length prefix) s
  else s.

(** 32-bit two's complement wrap-around, for [int32]. *)
Definition wrap32 (z : Z) : Z := (z + 2 ^ 31) mod 2 ^ 32 - 2 ^ 31.

Record NodeCondition := { condType : string; condStatus : string }.

(** The fields of [corev1.Node] that the helpers read; [nodeLabels] in
    the order the [range] visits it. *)
Record Node :=
  { nodeLabels : list (string * string);  (* node.Labels *)
    Conditions : list NodeCondition       (* node.Status.Conditions *) }.

Definition NodeReady : string := "Ready".
Definition ConditionTrue : string := "True".

Fixpoint nodeStatusFrom (conditions : list NodeCondition) : string :=
  match conditions with
  | [] => "Unknown"
  | condition :: conditions' =>
      if String.eqb (condType condition) NodeReady then
        if String.eqb (condStatus condition) ConditionTrue then "Ready"
        else "NotReady"
      else nodeStatusFrom conditions'
  end.

Definition GetNodeStatus (node : Node) : string :=
  nodeStatusFrom (Conditions node).

Definition rolePrefix : string := "node-role.kubernetes.io/".

Fixpoint nodeRoleFrom (labels : list (string * string)) : string :=
  match labels with
  | [] => "<none>"
  | (label, _) :: labels' =>
      if HasPrefix label rolePrefix then
        let role := TrimPrefix label rolePrefix in
        if negb (String.eqb role "") then role else nodeRoleFrom labels'
      else nodeRoleFrom labels'
  end.

Definition GetNodeRole (node : Node) : string :=
  nodeRoleFrom (nodeLabels node).

Record ContainerStatus := { Ready : bool; RestartCount : Z }.

(** [pod.Status.ContainerStatuses]. *)
Record Pod := { ContainerStatuses : list ContainerStatus }.

Definition GetPodReadyContainers (pod : Pod) : Z :=
  fold_left (fun ready status =>
               if Ready status then wrap32 (ready + 1) else ready)
            (ContainerStatuses pod) 0.

Definition GetPodRestarts (pod : Pod) : Z :=
  fold_left (fun restarts status => wrap32 (restarts + RestartCount status))
            (ContainerStatuses pod) 0.

Record ServicePort := { Port : Z; NodePort : Z; Protocol : string }.

(** One turn of the loop of [GetServicePorts]. *)
Definition renderServicePort (port : ServicePort) : string :=
  if negb (NodePort port =? 0)
  then itoa (Port port) ++ ":" ++ itoa (NodePort port) ++ "/" ++ Protocol port
  else itoa (Port port) ++ "/" ++ Protocol port.

(** [GetServicePorts], on [svc.Spec.Ports]. *)
Definition GetServicePorts (svcSpecPorts : list ServicePort) : string :=
  let ports :=
    fold_left (fun ports port => append_elem ports (renderServicePort port))
              svcSpecPorts [] in
  if len ports =? 0 then "<none>" else Join ports ",".

Definition ReadWriteOnce : string := "ReadWriteOnce".
Definition ReadOnlyMany : string := "ReadOnlyMany".
Definition ReadWriteMany : string := "ReadWriteMany".
Definition ReadWriteOncePod : string := "ReadWriteOncePod".

Record ObjectReference := { refNamespace : string; refName : string }.

(** The fields of [corev1.PersistentVolume] that the helpers read. *)
Record PersistentVolume :=
  { pvAccessModes : list string;           (* pv.Spec.AccessModes *)
    ClaimRef : option ObjectReference;     (* pv.Spec.ClaimRef, a pointer *)
    pvStorageClassName : string            (* pv.Spec.StorageClassName *) }.

(** The fields of [corev1.PersistentVolumeClaim] that the helpers read. *)
Record PersistentVolumeClaim :=
  { pvcAccessModes : list string;          (* pvc.Status.AccessModes *)
    pvcStorageClassName : option string    (* pvc.Spec.StorageClassName, a pointer *) }.

Definition GetPVAccessModes (pv : PersistentVolume) : string :=
  let modes :=
    fold_left
      (fun modes mode =>
         if String.eqb mode ReadWriteOnce then append_elem modes "RWO"
         else if String.eqb mode ReadOnlyMany then append_elem modes "ROX"
         else if String.eqb mode ReadWriteMany then append_elem modes "RWX"
         else if String.eqb mode ReadWriteOncePod then append_elem modes "RWOP"
         else append_elem modes mode)
      (pvAccessModes pv) [] in
  Join modes ",".

Definition GetPVClaim (pv : PersistentVolume) : string :=
  match ClaimRef pv with
  | Some ref => refNamespace ref ++ "/" ++ refName ref
  | None => "<none>"
  end.

Definition GetPVStorageClass (pv : PersistentVolume) : string :=
  if negb (String.eqb (pvStorageClassName pv) "") then pvStorageClassName pv
  else "<none>".

Definition GetPVCAccessModes (pvc : PersistentVolumeClaim) : string :=
  let modes :=
    fold_left
      (fun modes mode =>
         if String.eqb mode ReadWriteOnce then append_elem modes "RWO"
         else if String.eqb mode ReadOnlyMany then append_elem modes "ROX"
         else if String.eqb mode ReadWriteMany then append_elem modes "RWX"
         else if String.eqb mode ReadWriteOncePod then append_elem modes "RWOP"
         else append_elem modes mode)
      (pvcAccessModes pvc) [] in
  Join modes ",".

Definition GetPVCStorageClass (pvc : PersistentVolumeClaim) : string :=
  match pvcStorageClassName pvc with
  | Some name => name
  | None => "<none>"
  end.

(** ** The arguments of [kubectl get] *)

(** [buildKubectlGetArgs] of [pkg/cmd/get/common.go]. *)
Definition buildKubectlGetArgs
           (resourceType resourceName outputFormat selector namespace : string)
           (allNamespaces : bool) (context : string) : list string :=
  let args := ["get"; resourceType] in
  let args :=
    if negb (String.eqb resourceName "") then append_elem args resourceName
    else args in
  let args :=
    if negb (String.eqb outputFormat "") then (args ++ ["-o"; outputFormat])%list
    else args in
  let args :=
    if negb (String.eqb selector "") then (args ++ ["-l"; selector])%list
    else args in
  let args :=
    if allNamespaces then append_elem args "-A"
    else if negb (String.eqb namespace "") then (args ++ ["-n"; namespace])%list
    else args in
  (args ++ ["--context"; context])%list.

(** ** Vocabulary of the statements *)

(** The catalog as the sequence it is scanned in: every resource with the
    group-version string of the list that owns it. *)
Definition catalogEntries (ls : list APIResourceList)
  : list (string * APIResource) :=
  flat_map (fun l => map (pair (GroupVersion_ l)) (APIResources l)) ls.

(** The same sequence without the lists whose group-version string
    [ParseGroupVersion] refuses. *)
Definition parsedEntries (ls : list APIResourceList)
  : list (GroupVersion * APIResource) :=
  flat_map
    (fun l =>
       match ParseGroupVersion (GroupVersion_ l) with
       | Some gv => map (pair gv) (APIResources l)
       | None => []
       end)
    ls.

(** The descriptor built from a matched entry. *)
Definition descriptorOf (e : GroupVersion * APIResource)
  : GroupVersionResource * bool :=
  (WithResource (fst e) (Name (snd e)), Namespaced (snd e)).

(** A catalog whose query succeeded. *)
Definition catalog (ls : list APIResourceList) : DiscoveryInterface :=
  {| ServerGroupsAndResources := (ls, None) |}.

(** The registry keys that the [defaults] table has no entry for. *)
Definition uncovered : list string :=
  [ "resourcequotas"; "limitranges"; "networkpolicies"; "roles";
    "storageclasses"; "events" ].

(** What one load-balancer ingress entry contributes: the string under
    "ip" when the entry has that key, else the string under "hostname". *)
Definition ingressValue (ing : value) : option string :=
  match ing with
  | VMap m =>
      match lookup "ip" m with
      | Some v => asString v
      | None =>
          match lookup "hostname" m with
          | Some v => asString v
          | None => None
          end
      end
  | _ => None
  end.

Definition usableValues (ingress : list value) : list string :=
  flat_map (fun ing => match ingressValue ing with
                       | Some s => [s]
                       | None => []
                       end) ingress.

(** No string stored in the value is empty. *)
Fixpoint noEmptyString (v : value) : bool :=
  match v with
  | VString s => negb (String.eqb s "")
  | VSlice l => forallb noEmptyString l
  | VMap m => forallb (fun kv => let '(_, x) := kv in noEmptyString x) m
  | _ => true
  end.

Definition nonEmpty (s : string) : Prop := s <> "".

(** Some entry of the port list carries an integer under "port". *)
Definition hasIntegerPort (ports : list value) : bool :=
  existsb (fun port =>
             match port with
             | VMap portMap =>
                 match lookup "port" portMap with
                 | Some (VInt64 _) => true
                 | _ => false
                 end
             | _ => false
             end) ports.

(** The record has no list at spec.ports, or an empty one, or one with
    an integer port. *)
Definition portsRenderable (obj : object) : Prop :=
  match NestedSlice obj ["spec"; "ports"] with
  | Found ports => ports = [] \/ hasIntegerPort ports = true
  | Absent | Mismatch => True
  end.

(** Go's order on strings, byte by byte. *)
Definition le (a b : string) : Prop := String.leb a b = true.

(** [fmt.Sprintf("%s=%s", k, v)]. *)
Definition renderPair (kv : string * string) : string :=
  fst kv ++ "=" ++ snd kv.

(** What the comma-separated tail of a join looks like. *)
Fixpoint commaTail (l : list string) : string :=
  match l with
  | [] => ""
  | x :: l' => "," ++ x ++ commaTail l'
  end.

(** A value that stores no empty string. *)
Definition clean (v : value) : Prop := noEmptyString v = true.

(** An entry of a container-status list that counts as ready: a map
    whose "ready" is the boolean true. *)
Definition isReadyEntry (status : value) : bool :=
  match status with
  | VMap statusMap =>
      match lookup "ready" statusMap with
      | Some (VBool true) => true
      | _ => false
      end
  | _ => false
  end.

(** The restarts an entry of a container-status list reports: the integer
    under "restartCount", nothing otherwise. *)
Definition restartCountOf (status : value) : Z :=
  match status with
  | VMap statusMap =>
      match lookup "restartCount" statusMap with
      | Some (VInt64 count) => count
      | _ => 0
      end
  | _ => 0
  end.

Definition sumZ (l : list Z) : Z := fold_right Z.add 0 l.

(** The string under "ip" of an address entry and the integer under
    "port" of a port entry. *)
Definition addressIP (addr : value) : option string :=
  match addr with
  | VMap addrMap =>
      match lookup "ip" addrMap with
      | Some (VString ipStr) => Some ipStr
      | _ => None
      end
  | _ => None
  end.

Definition portNumber (port : value) : option Z :=
  match port with
  | VMap portMap =>
      match lookup "port" portMap with
      | Some (VInt64 p) => Some p
      | _ => None
      end
  | _ => None
  end.

Definition somes {A : Type} (f : value -> option A) (l : list value) : list A :=
  flat_map (fun v => match f v with Some a => [a] | None => [] end) l.

(** Every usable address of a subset against every usable port of it,
    addresses outermost; nothing for a subset that lacks one of the two
    lists or has an empty one. *)
Definition subsetPairs (subset : value) : list string :=
  match subset with
  | VMap subsetMap =>
      match NestedSlice subsetMap ["addresses"], NestedSlice subsetMap ["ports"] with
      | Found ((_ :: _) as addresses), Found ((_ :: _) as ports) =>
          flat_map (fun ipStr =>
                      map (fun p => ipStr ++ ":" ++ itoa p) (somes portNumber ports))
                   (somes addressIP addresses)
      | _, _ => []
      end
  | _ => []
  end.

Definition endpointPairs (subsets : list value) : list string :=
  flat_map subsetPairs subsets.

(** The code an access mode is shown as. *)
Definition abbreviate (mode : string) : string :=
  if String.eqb mode ReadWriteOnce then "RWO"
  else if String.eqb mode ReadOnlyMany then "ROX"
  else if String.eqb mode ReadWriteMany then "RWX"
  else if String.eqb mode ReadWriteOncePod then "RWOP"
  else mode.

(** A label that names a role: the prefix and something after it. *)
Definition isRoleLabel (label : string) : bool :=
  HasPrefix label rolePrefix
  && negb (String.eqb (TrimPrefix label rolePrefix) "").

Fixpoint distinct (l : list string) : bool :=
  match l with
  | [] => true
  | x :: l' => negb (existsb (String.eqb x) l') && distinct l'
  end.

(** What every column list of the registry satisfies: it is not empty,
    its names differ, no name or default is empty, and only OBJECT has
    the empty path. *)
Definition wellFormedColumns (cols : list ColumnDefinition) : bool :=
  negb (len cols =? 0)
  && distinct (map ColName cols)
  && forallb (fun c => negb (String.eqb (ColName c) "")
                       && negb (String.eqb (DefaultValue c) "")
                       && (negb (String.eqb (JSONPath c) "")
                           || String.eqb (ColName c) "OBJECT")) cols.

Definition inRange64 (z : Z) : Prop := - 2 ^ 63 <= z < 2 ^ 63.

Definition inRange32 (z : Z) : Prop := - 2 ^ 31 <= z < 2 ^ 31.

(** ** Instances for the examples *)

(** A runtime whose Unicode paths leave the string alone and compare
    bytes; the ASCII paths do not consult it. *)
Definition bytewise_ToLower (s : string) : string := s.
Definition bytewise_EqualFold (s t : string) : bool := String.eqb s t.

Definition digitValue (c : ascii) : option Z :=
  let b := byte_of c in
  if (byte_of "0" <=? b) && (b <=? byte_of "9") then Some (b - byte_of "0")
  else None.

Fixpoint number (s : string) (acc : Z) : option Z :=
  match s with
  | EmptyString => Some acc
  | String c s' =>
      match digitValue c with
      | Some d => number s' (10 * acc + d)
      | None => None
      end
  end.

Definition isLeap (y : Z) : bool :=
  (y mod 4 =? 0) && (negb (y mod 100 =? 0) || (y mod 400 =? 0)).

Definition daysIn (y m : Z) : Z :=
  if m =? 2 then (if isLeap y then 29 else 28)
  else if (m =? 4) || (m =? 6) || (m =? 9) || (m =? 11) then 30
  else 31.

(** Days from 1970-01-01 to the given civil date. *)
Definition daysFromCivil (y m d : Z) : Z :=
  let y := if m <=? 2 then y - 1 else y in
  let era := y / 400 in
  let yoe := y - era * 400 in
  let doy := (153 * (if 2 <? m then m - 3 else m + 9) + 2) / 5 + d - 1 in
  let doe := yoe * 365 + yoe / 4 - yoe / 100 + doy in
  era * 146097 + doe - 719468.

(** A parser for the UTC form [YYYY-MM-DDTHH:MM:SSZ] of the RFC 3339
    layout, the form the API server writes; it stands in for [time.Parse]
    in the examples. *)
Definition parseUTC (layout value : string) : option Z :=
  if negb (String.eqb layout RFC3339) then None
  else if negb (Nat.eqb (String.length value) 20) then None
  else if negb (String.eqb (substring 4 1 value) "-"
                && String.eqb (substring 7 1 value) "-"
                && String.eqb (substring 10 1 value) "T"
                && String.eqb (substring 13 1 value) ":"
                && String.eqb (substring 16 1 value) ":"
                && String.eqb (substring 19 1 value) "Z") then None
  else
    match number (substring 0 4 value) 0, number (substring 5 2 value) 0,
          number (substring 8 2 value) 0, number (substring 11 2 value) 0,
          number (substring 14 2 value) 0, number (substring 17 2 value) 0 with
    | Some y, Some m, Some d, Some hh, Some mm, Some ss =>
        if (1 <=? m) && (m <=? 12) && (1 <=? d) && (d <=? daysIn y m)
           && (hh <=? 23) && (mm <=? 59) && (ss <=? 59)
        then Some ((daysFromCivil y m d * 86400 + hh * 3600 + mm * 60 + ss)
                   * Duration.Second)
        else None
    | _, _, _, _, _, _ => None
    end.

Definition noon : World :=
  {| now := 1704110400 * Duration.Second; rangeReversed := false |}.

Definition midnight : World :=
  {| now := 1704153600 * Duration.Second; rangeReversed := true |}.

(** ** Sample inputs *)

(** A catalog whose first list carries a group-version string with two
    slashes. *)
Definition strayCatalog : list APIResourceList :=
  [ {| GroupVersion_ := "a/b/c";
       APIResources := [ {| Name := "PODS"; SingularName := "pod";
                            Namespaced := false; ShortNames := ["po"] |} ] |};
    {| GroupVersion_ := "v1";
       APIResources := [ {| Name := "pods"; SingularName := "pod";
                            Namespaced := true; ShortNames := ["po"] |} ] |} ].

(** A catalog that lists only the deployments of apps/v1. *)
Definition appsCatalog : list APIResourceList :=
  [ {| GroupVersion_ := "apps/v1";
       APIResources := [ {| Name := "deployments"; SingularName := "deployment";
                            Namespaced := true; ShortNames := ["deploy"] |} ] |} ].

(** A service whose load balancer lists no ingress entry. *)
Definition emptyIngress : object :=
  [ ("status", VMap [ ("loadBalancer", VMap [ ("ingress", VSlice []) ]) ]) ].

(** A service with the given load-balancer ingress entries. *)
Definition ingressOf (entries : list value) : object :=
  [ ("status", VMap [ ("loadBalancer", VMap [ ("ingress", VSlice entries) ]) ]) ].

(** A service that exposes ports 80 and 443. *)
Definition webService : object :=
  [ ("spec",
     VMap [ ("type", VString "LoadBalancer");
            ("clusterIP", VString "10.0.0.7");
            ("ports",
             VSlice [ VMap [ ("name", VString "http"); ("port", VInt64 80) ];
                      VMap [ ("name", VString "https"); ("port", VInt64 443) ] ]) ]) ].

(** A pod whose phase is the empty string. *)
Definition blankPhasePod : object :=
  [ ("status", VMap [ ("phase", VString "") ]) ].

(** A service whose only port entry has no integer under "port". *)
Definition namedPortService : object :=
  [ ("spec", VMap [ ("ports", VSlice [ VMap [ ("name", VString "http") ] ]) ]) ].


(** A finished job that ran for ninety seconds. *)
Definition finishedJob : object :=
  [ ("status",
     VMap [ ("startTime", VString "2024-01-01T00:00:00Z");
            ("completionTime", VString "2024-01-01T00:01:30Z");
            ("succeeded", VInt64 1) ]) ].

(** A running pod with three containers. *)
Definition runningPod : object :=
  [ ("metadata", VMap [ ("name", VString "web");
                        ("creationTimestamp", VString "2024-01-01T00:00:00Z") ]);
    ("status",
     VMap [ ("phase", VString "Running");
            ("containerStatuses",
             VSlice [ VMap [ ("ready", VBool true); ("restartCount", VInt64 2) ];
                      VMap [ ("ready", VBool false); ("restartCount", VInt64 0) ];
                      VMap [ ("ready", VBool true); ("restartCount", VInt64 3) ] ]) ]) ].

(** An event of type Warning. *)
Definition warningEvent : object :=
  [ ("type", VString "Warning"); ("reason", VString "BackOff") ].

(** A control-plane node with two role labels. *)
Definition controlPlane : Node :=
  {| nodeLabels := [ ("kubernetes.io/hostname", "cp-1");
                     ("node-role.kubernetes.io/control-plane", "");
                     ("node-role.kubernetes.io/master", "") ];
     Conditions := [ {| condType := "MemoryPressure"; condStatus := "False" |};
                     {| condType := "Ready"; condStatus := "True" |} ] |}.

(** An endpoints object with two addresses and two ports in one subset
    and a second subset without ports. *)
Definition webEndpoints : object :=
  [ ("subsets",
     VSlice [ VMap [ ("addresses",
                      VSlice [ VMap [ ("ip", VString "10.0.0.1") ];
                               VMap [ ("ip", VString "10.0.0.2") ] ]);
                     ("ports",
                      VSlice [ VMap [ ("port", VInt64 80) ];
                               VMap [ ("port", VInt64 443) ] ]) ];
              VMap [ ("addresses",
                      VSlice [ VMap [ ("ip", VString "10.0.0.3") ] ]) ] ]) ].

(** A job that started and has not finished. *)
Definition runningJob : object :=
  [ ("status", VMap [ ("startTime", VString "2024-01-01T00:00:00Z");
                      ("active", VInt64 1) ]) ].

(** A volume with capacity under spec and a claim with it under status. *)
Definition specVolume : object :=
  [ ("spec", VMap [ ("capacity", VMap [ ("storage", VString "10Gi") ]) ]);
    ("status", VMap [ ("capacity", VMap [ ("storage", VString "5Gi") ]) ]) ].

Definition otherStatusVolume : object :=
  [ ("spec", VMap [ ("capacity", VMap [ ("storage", VString "10Gi") ]) ]);
    ("status", VMap [ ("capacity", VMap [ ("storage", VString "1Ti") ]) ]) ].

(** A catalog that lists the cluster-scoped nodes of the core group. *)
Definition coreCatalog : list APIResourceList :=
  [ {| GroupVersion_ := "v1";
       APIResources := [ {| Name := "nodes"; SingularName := "node";
                            Namespaced := false; ShortNames := ["no"] |} ] |} ].

(** An ingress with one HTTP rule and no TLS section. *)
Definition plainIngress : object :=
  [ ("spec",
     VMap [ ("rules",
             VSlice [ VMap [ ("host", VString "example.com");
                             ("http", VMap [ ("paths", VSlice [ VMap [] ]) ]) ] ]) ]) ].

(** A pod with three containers, two of them ready. *)
Definition threeContainers : Pod :=
  {| ContainerStatuses := [ {| Ready := true; RestartCount := 2 |};
                            {| Ready := false; RestartCount := 0 |};
                            {| Ready := true; RestartCount := 3 |} ] |}.

(** ** The statements as the specification words them *)

(** "The first match in catalog iteration order wins": whatever entry of
    the catalog matches first, the answer is built from it. *)
Definition first_catalog_match_wins : Prop :=
  forall (uL : string -> string) (uF : string -> string -> bool)
         (ls : list APIResourceList) (rt gvs : string) (r : APIResource),
    find (fun e => matchesResourceType uF (snd e) (normalizeResourceType uL rt))
         (catalogEntries ls) = Some (gvs, r) ->
    exists gv,
      DiscoverGVR uL uF (catalog ls) rt
      = (WithResource gv (Name r), Namespaced r, None).

(** "The default table covers every resource type of the registry". *)
Definition defaults_cover_registry : Prop :=
  forall k, In k (keys columns) -> exists d, lookup k defaults = Some d.

(** "An extraction returns a non-empty string or the column's default",
    for the columns the registry produces. *)
Definition extraction_nonempty_or_default : Prop :=
  forall (uL : string -> string) (tp : string -> string -> option Z)
         (w : World) (rt : string) (obj : object) (c : ColumnDefinition),
    In c (GetResourceColumns uL rt) ->
    nonEmpty (ExtractColumnValue tp w obj c)
    \/ ExtractColumnValue tp w obj c = DefaultValue c.

(** "The ingress array present but without a usable value gives
    <pending>". *)
Definition present_unusable_is_pending : Prop :=
  forall (obj : object) (ingress : list value),
    NestedSlice obj ["status"; "loadBalancer"; "ingress"] = Found ingress ->
    usableValues ingress = [] ->
    extractExternalIPValue obj = "<pending>".


(** * Properties *)

(** ** Lists and strings *)

Lemma find_app_first (A : Type) (f : A -> bool) (l1 l2 : list A) :
  find f (l1 ++ l2)
  = match find f l1 with Some x => Some x | None => find f l2 end.
Proof.
  induction l1 as [|a l1 IH]; simpl; [reflexivity|].
  destruct (f a); [reflexivity | exact IH].
Qed.

Lemma lookup_In (A : Type) (k : string) (m : list (string * A)) (v : A) :
  lookup k m = Some v -> In (k, v) m.
Proof.
  induction m as [|[k' v'] m IH]; simpl; [discriminate|].
  destruct (String.eqb k k') eqn:E.
  - apply String.eqb_eq in E. intros [= ->]. subst. now left.
  - intros H. right. now apply IH.
Qed.

Lemma lookup_None_keys (A : Type) (k : string) (m : list (string * A)) :
  lookup k m = None <-> ~ In k (keys m).
Proof.
  induction m as [|[k' v'] m IH]; simpl; [tauto|].
  destruct (String.eqb k k') eqn:E.
  - apply String.eqb_eq in E. subst. split; [discriminate | tauto].
  - apply String.eqb_neq in E. rewrite IH. split.
    + intros H [H1 | H1]; [congruence | tauto].
    + tauto.
Qed.

(** ** The resolver and the registry *)

Section ResolverFacts.

Variable uL : string -> string.
Variable uF : string -> string -> bool.

Local Abbreviation normalize := (normalizeResourceType uL).
Local Abbreviation matches := (matchesResourceType uF).
Local Abbreviation columnsFor := (GetResourceColumns uL).
Local Abbreviation resolve := (DiscoverGVR uL uF).

Lemma ToLower_ascii (s : string) :
  isASCII s = true -> ToLower uL s = lowerASCII s.
Proof. unfold ToLower. now intros ->. Qed.

Lemma scanResources_find (gv : GroupVersion) (rs : list APIResource)
      (t : string) :
  scanResources uF gv rs t
  = option_map descriptorOf
      (find (fun e => matches (snd e) t) (map (pair gv) rs)).
Proof.
  induction rs as [|r rs IH]; simpl; [reflexivity|].
  destruct (matches r t); [reflexivity | exact IH].
Qed.

Lemma scanLists_find (ls : list APIResourceList) (t : string) :
  scanLists uF ls t
  = option_map descriptorOf
      (find (fun e => matches (snd e) t) (parsedEntries ls)).
Proof.
  induction ls as [|l ls IH]; simpl; [reflexivity|].
  rewrite find_app_first.
  destruct (ParseGroupVersion (GroupVersion_ l)) as [gv|]; simpl.
  - rewrite scanResources_find.
    destruct (find _ (map (pair gv) (APIResources l))); simpl;
      [reflexivity | exact IH].
  - exact IH.
Qed.

Lemma find_none_no_match (A : Type) (f : A -> bool) (l : list A) :
  (forall x, In x l -> f x = false) -> find f l = None.
Proof.
  induction l as [|a l IH]; simpl; intros H; [reflexivity|].
  rewrite (H a) by now left. apply IH. intros x Hx. apply H. now right.
Qed.

Lemma parsedEntries_In (ls : list APIResourceList) (e : GroupVersion * APIResource) :
  In e (parsedEntries ls) ->
  exists l, In l ls /\ In (snd e) (APIResources l).
Proof.
  unfold parsedEntries. rewrite in_flat_map. intros (l & Hl & He).
  exists l. split; [exact Hl|].
  destruct (ParseGroupVersion (GroupVersion_ l)); [|contradiction].
  apply in_map_iff in He. destruct He as (r & <- & Hr). exact Hr.
Qed.

(** C4: normalizeResourceType sends every input whose lower-cased form
    is an alias to the alias's canonical plural name, every alias to
    its own canonical name, and any other input to its lower-cased form
    with "s" appended unless that form already ends in "s"; "po", "cm",
    "widget" and "widgets" come out as "pods", "configmaps", "widgets"
    and "widgets". *)
Theorem normalize_aliases_and_plural :
  (forall s a c, In (a, c) aliases -> ToLower uL s = a -> normalize s = c)
  /\ (forall a c, In (a, c) aliases -> normalize a = c)
  /\ (forall s, lookup (ToLower uL s) aliases = None ->
                normalize s
                = if HasSuffix (ToLower uL s) "s" then ToLower uL s
                  else ToLower uL s ++ "s")
  /\ normalize "po" = "pods"
  /\ normalize "cm" = "configmaps"
  /\ normalize "PO" = "pods"
  /\ normalize "Cm" = "configmaps"
  /\ normalize "widget" = "widgets"
  /\ normalize "widgets" = "widgets"
  /\ normalize "Widget" = "widgets".
Proof.
  assert (A : forall s a c, In (a, c) aliases -> ToLower uL s = a ->
                            normalize s = c).
  { intros s a c Hin Hs. unfold normalizeResourceType. rewrite Hs.
    unfold aliases in Hin. simpl in Hin.
    repeat (destruct Hin as [Hin | Hin];
            [injection Hin as <- <-; reflexivity|]).
    contradiction. }
  split; [exact A|]. split.
  { intros a c Hin. apply (A a a c Hin).
    unfold aliases in Hin. simpl in Hin.
    repeat (destruct Hin as [Hin | Hin];
            [injection Hin as <- <-; reflexivity|]).
    contradiction. }
  split.
  { intros s Hs. unfold normalizeResourceType. rewrite Hs.
    now destruct (HasSuffix (ToLower uL s) "s"). }
  repeat split; reflexivity.
Qed.

(** C3: GetResourceColumns looks the lower-cased type up, so two
    spellings with one lower-cased form get the same columns; "pods"
    gets READY, STATUS, RESTARTS, AGE and "services" gets TYPE,
    CLUSTER-IP, EXTERNAL-IP, PORT(S), AGE, in that order; a type whose
    lower-cased form is no key of the table gets the single column AGE
    with path metadata.creationTimestamp and default "<unknown>". *)
Theorem columns_for_known_and_unknown :
  (forall s t, ToLower uL s = ToLower uL t -> columnsFor s = columnsFor t)
  /\ map ColName (columnsFor "pods") = ["READY"; "STATUS"; "RESTARTS"; "AGE"]
  /\ columnsFor "PODS" = columnsFor "pods"
  /\ map ColName (columnsFor "services")
     = ["TYPE"; "CLUSTER-IP"; "EXTERNAL-IP"; "PORT(S)"; "AGE"]
  /\ columnsFor "Services" = columnsFor "services"
  /\ (forall s, ~ In (ToLower uL s) (keys columns) ->
                columnsFor s
                = [ {| ColName := "AGE";
                       JSONPath := "metadata.creationTimestamp";
                       DefaultValue := "<unknown>" |} ])
  /\ map ColName (columnsFor "unknown-resource") = ["AGE"].
Proof.
  split.
  { intros s t H. unfold GetResourceColumns. now rewrite H. }
  repeat split; try reflexivity.
  intros s H. apply lookup_None_keys in H.
  unfold GetResourceColumns. now rewrite H.
Qed.

(** C2: on a catalog whose query succeeded DiscoverGVR returns a
    descriptor and no error for every type string; when no resource of
    the catalog matches, the descriptor is the entry of the default
    table under the normalized name, or, when the table has none, core
    group, version v1 and the normalized name, with namespaced true in
    both cases; the empty catalog and "po" give core/v1/pods,
    namespaced. *)
Theorem resolve_total_with_fallback :
  (forall ls rt, exists d ns, resolve (catalog ls) rt = (d, ns, None))
  /\ (forall ls rt,
         (forall l r, In l ls -> In r (APIResources l) ->
                      matches r (normalize rt) = false) ->
         resolve (catalog ls) rt
         = (match lookup (normalize rt) defaults with
            | Some d => d
            | None => {| Group := ""; Version := "v1";
                         Resource := normalize rt |}
            end, true, None))
  /\ resolve (catalog []) "po"
     = ({| Group := ""; Version := "v1"; Resource := "pods" |}, true, None).
Proof.
  split.
  { intros ls rt. unfold DiscoverGVR. simpl.
    destruct (scanLists uF ls (normalize rt)) as [[g ns]|]; eauto. }
  split; [|reflexivity].
  intros ls rt H. unfold DiscoverGVR. simpl.
  rewrite scanLists_find, find_none_no_match; [reflexivity|].
  intros e He. apply parsedEntries_In in He. destruct He as (l & Hl & Hr).
  now apply (H l).
Qed.

Lemma find_map_pair (A B : Type) (f : B -> bool) (a x : A) (rs : list B)
      (r : B) :
  find (fun e => f (snd e)) (map (pair a) rs) = Some (x, r) ->
  x = a /\ find f rs = Some r.
Proof.
  induction rs as [|b rs IH]; simpl; [discriminate|].
  destruct (f b); [intros [= <- <-]; tauto | exact IH].
Qed.

Lemma find_map_pair_none (A B : Type) (f : B -> bool) (a : A) (rs : list B) :
  find (fun e => f (snd e)) (map (pair a) rs) = None -> find f rs = None.
Proof.
  induction rs as [|b rs IH]; simpl; [reflexivity|].
  destruct (f b); [discriminate | exact IH].
Qed.

Lemma scanResources_find_resource (gv : GroupVersion) (rs : list APIResource)
      (t : string) :
  scanResources uF gv rs t
  = option_map (fun r => (WithResource gv (Name r), Namespaced r))
      (find (fun r => matches r t) rs).
Proof.
  induction rs as [|r rs IH]; simpl; [reflexivity|].
  destruct (matches r t); [reflexivity | exact IH].
Qed.

Lemma scanLists_catalog_order (ls : list APIResourceList) (t gvs : string)
      (r : APIResource) :
  (forall l, In l ls -> ParseGroupVersion (GroupVersion_ l) <> None) ->
  find (fun e => matches (snd e) t) (catalogEntries ls) = Some (gvs, r) ->
  exists gv, ParseGroupVersion gvs = Some gv
             /\ scanLists uF ls t
                = Some (WithResource gv (Name r), Namespaced r).
Proof.
  induction ls as [|l ls IH]; simpl; [discriminate|].
  intros Hp. rewrite find_app_first.
  destruct (ParseGroupVersion (GroupVersion_ l)) as [gv|] eqn:Egv;
    [|now destruct (Hp l); [left|]].
  rewrite scanResources_find_resource.
  destruct (find _ (map (pair (GroupVersion_ l)) (APIResources l)))
    as [[x r']|] eqn:E.
  - intros [= -> ->]. apply (@find_map_pair _ _ (fun r => matches r t)) in E. destruct E as [-> E].
    exists gv. split; [exact Egv|].
    rewrite E. reflexivity.
  - apply (@find_map_pair_none _ _ (fun r => matches r t)) in E. rewrite E. simpl.
    apply IH. intros l' Hl'. apply Hp. now right.
Qed.

(** C7 (as amended): a resource matches exactly when its name, its
    singular name or one of its short names equals the type under
    EqualFold; DiscoverGVR answers with the first match among the
    resources of the lists whose group-version string parses, taken in
    catalog order: group and version of that list, the matched name, the
    declared scope; and when every group-version string of the catalog
    parses, that is the first match of the whole catalog. *)
Theorem first_parsed_match_wins :
  (forall r t,
      matches r t = true
      <-> (EqualFold uF (Name r) t = true
           \/ EqualFold uF (SingularName r) t = true
           \/ exists shortName, In shortName (ShortNames r)
                                /\ EqualFold uF shortName t = true))
  /\ (forall ls rt,
         resolve (catalog ls) rt
         = match find (fun e => matches (snd e) (normalize rt))
                      (parsedEntries ls) with
           | Some (gv, r) => (WithResource gv (Name r), Namespaced r, None)
           | None => (getDefaultGVR (normalize rt), true, None)
           end)
  /\ (forall ls rt gvs r,
         (forall l, In l ls -> ParseGroupVersion (GroupVersion_ l) <> None) ->
         find (fun e => matches (snd e) (normalize rt)) (catalogEntries ls)
         = Some (gvs, r) ->
         exists gv, ParseGroupVersion gvs = Some gv
                    /\ resolve (catalog ls) rt
                       = (WithResource gv (Name r), Namespaced r, None)).
Proof.
  split; [|split].
  - intros r t. unfold matchesResourceType.
    destruct (EqualFold uF (Name r) t); [tauto|].
    destruct (EqualFold uF (SingularName r) t); [tauto|].
    rewrite existsb_exists. split.
    + intros (x & Hx & E). right. right. now exists x.
    + intros [H | [H | (x & Hx & E)]]; try discriminate. now exists x.
  - intros ls rt. unfold DiscoverGVR. simpl. rewrite scanLists_find.
    destruct (find _ (parsedEntries ls)) as [[gv r]|]; reflexivity.
  - intros ls rt gvs r Hp Hf.
    destruct (scanLists_catalog_order _ _ Hp Hf) as (gv & Hgv & Hs).
    exists gv. split; [exact Hgv|].
    unfold DiscoverGVR. simpl. now rewrite Hs.
Qed.

End ResolverFacts.

(** C7, counterexample: the first match of [strayCatalog] in catalog
    order is the cluster-scoped "PODS" of the list "a/b/c", yet
    DiscoverGVR answers with the namespaced "pods" of the list "v1". *)
Lemma first_catalog_match_skipped :
  find (fun e => matchesResourceType bytewise_EqualFold (snd e)
                   (normalizeResourceType bytewise_ToLower "pods"))
       (catalogEntries strayCatalog)
  = Some ("a/b/c", {| Name := "PODS"; SingularName := "pod";
                      Namespaced := false; ShortNames := ["po"] |})
  /\ DiscoverGVR bytewise_ToLower bytewise_EqualFold (catalog strayCatalog) "pods"
     = ({| Group := ""; Version := "v1"; Resource := "pods" |}, true, None)
  /\ ~ first_catalog_match_wins.
Proof.
  split; [reflexivity|]. split; [reflexivity|].
  intros H.
  destruct (H bytewise_ToLower bytewise_EqualFold strayCatalog "pods" "a/b/c"
              {| Name := "PODS"; SingularName := "pod";
                 Namespaced := false; ShortNames := ["po"] |} eq_refl)
    as (gv & E).
  vm_compute in E. discriminate E.
Qed.

(** ** The default table against the registry *)

Ltac each_key H :=
  simpl in H;
  repeat (destruct H as [H | H]; [subst|]); try contradiction.

(** C6, counterexample: "events" is a key of the registry, and the
    default table has nothing under it. *)
Lemma defaults_miss_events :
  In "events" (keys columns)
  /\ lookup "events" defaults = None
  /\ ~ defaults_cover_registry.
Proof.
  assert (Hin : In "events" (keys columns)).
  { unfold keys, columns. simpl. repeat (first [now left | right]). }
  split; [exact Hin|]. split; [reflexivity|].
  intros H. destruct (H "events" Hin) as (d & Hd). discriminate Hd.
Qed.

(** C6 (as amended): the registry has twenty-one keys and the default
    table covers fifteen of them, all but resourcequotas, limitranges,
    networkpolicies, roles, storageclasses and events, which are keys of
    the registry; a covered key maps to a version-v1 descriptor of the
    resource of that name; for an uncovered key getDefaultGVR makes up the
    core-group, version-v1 descriptor of that name. *)
Theorem defaults_cover_all_but_six :
  List.length (keys columns) = 21%nat
  /\ List.length (filter (fun k => match lookup k defaults with
                                   | Some _ => true
                                   | None => false
                                   end) (keys columns)) = 15%nat
  /\ (forall k, In k uncovered -> In k (keys columns))
  /\ (forall k,
         In k (keys columns) ->
         (~ In k uncovered ->
          exists d, lookup k defaults = Some d
                    /\ Resource d = k /\ Version d = "v1"
                    /\ getDefaultGVR k = d)
         /\ (In k uncovered ->
             lookup k defaults = None
             /\ getDefaultGVR k
                = {| Group := ""; Version := "v1"; Resource := k |})).
Proof.
  split; [reflexivity|]. split; [reflexivity|]. split.
  { intros k H. unfold uncovered in H. each_key H.
    all: unfold keys, columns; simpl; tauto. }
  intros k H. unfold keys, columns in H. each_key H.
  all: split; intros Hu.
  all: try (exfalso; apply Hu; unfold uncovered; simpl; tauto).
  all: try (exfalso; unfold uncovered in Hu; each_key Hu; discriminate).
  all: try (split; reflexivity).
  all: eexists; repeat split; reflexivity.
Qed.

(** ** Strings: order, sorting and joining *)

Lemma len_eqb_0 (A : Type) (l : list A) :
  (len l =? 0) = match l with [] => true | _ :: _ => false end.
Proof.
  destruct l; [reflexivity|]. unfold len. cbn [List.length].
  rewrite Nat2Z.inj_succ. apply Z.eqb_neq. lia.
Qed.

Lemma len_pos (A : Type) (l : list A) :
  (0 <? len l) = match l with [] => false | _ :: _ => true end.
Proof.
  destruct l; [reflexivity|]. unfold len. cbn [List.length].
  rewrite Nat2Z.inj_succ. apply Z.ltb_lt. lia.
Qed.

Lemma append_assoc (a b c : string) : (a ++ b) ++ c = a ++ (b ++ c).
Proof. induction a as [|x a IH]; simpl; [reflexivity | now rewrite IH]. Qed.

Lemma append_empty_r (a : string) : a ++ "" = a.
Proof. induction a as [|x a IH]; simpl; [reflexivity | now rewrite IH]. Qed.

Lemma append_nonEmpty_l (a b : string) : nonEmpty a -> nonEmpty (a ++ b).
Proof. destruct a; simpl; [intros H; now destruct H | discriminate]. Qed.

Lemma append_nonEmpty_r (a b : string) : nonEmpty b -> nonEmpty (a ++ b).
Proof. destruct a; simpl; [tauto | discriminate]. Qed.

Lemma le_trans (a b c : string) : le a b -> le b c -> le a c.
Proof.
  unfold le, String.leb. revert b c.
  induction a as [|x a IH]; intros [|y b] [|z c]; simpl; try easy.
  specialize (IH b c). unfold Ascii.compare.
  destruct (N.compare_spec (N_of_ascii x) (N_of_ascii y)) as [E1|L1|G1];
    destruct (N.compare_spec (N_of_ascii y) (N_of_ascii z)) as [E2|L2|G2];
    destruct (N.compare_spec (N_of_ascii x) (N_of_ascii z)) as [E3|L3|G3];
    try easy; try lia.
Qed.

Lemma le_antisym (a b : string) : le a b -> le b a -> a = b.
Proof. apply String.leb_antisym. Qed.

Lemma le_total (a b : string) : le a b \/ le b a.
Proof. apply String.leb_total. Qed.

Lemma insert_sorted_perm (x : string) (l : list string) :
  Permutation (x :: l) (insert_sorted x l).
Proof.
  induction l as [|y l IH]; simpl; [reflexivity|].
  destruct (String.leb x y); [reflexivity|].
  rewrite perm_swap. now constructor.
Qed.

Lemma sort_Strings_perm (l : list string) : Permutation l (sort_Strings l).
Proof.
  induction l as [|x l IH]; simpl; [constructor|].
  rewrite <- insert_sorted_perm. now constructor.
Qed.

Lemma insert_sorted_sorted (x : string) (l : list string) :
  StronglySorted le l -> StronglySorted le (insert_sorted x l).
Proof.
  induction l as [|y l IH]; simpl; intros H.
  - repeat constructor.
  - inversion H as [|? ? Hl Hy]; subst.
    destruct (String.leb x y) eqn:E.
    + constructor; [exact H|]. constructor; [exact E|].
      eapply Forall_impl; [|exact Hy]. intros z. now apply le_trans.
    + constructor; [now apply IH|].
      rewrite <- insert_sorted_perm. constructor; [|exact Hy].
      destruct (le_total x y) as [L | L]; [unfold le in L; congruence | exact L].
Qed.

Lemma sort_Strings_sorted (l : list string) :
  StronglySorted le (sort_Strings l).
Proof.
  induction l as [|x l IH]; simpl; [constructor|].
  now apply insert_sorted_sorted.
Qed.

Lemma sorted_perm_unique (l1 l2 : list string) :
  StronglySorted le l1 -> StronglySorted le l2 -> Permutation l1 l2 ->
  l1 = l2.
Proof.
  revert l2. induction l1 as [|a l1 IH]; intros l2 S1 S2 P.
  - now apply Permutation_nil in P.
  - destruct l2 as [|b l2];
      [now apply Permutation_sym, Permutation_nil in P|].
    inversion S1 as [|? ? S1' F1]; inversion S2 as [|? ? S2' F2]; subst.
    assert (a = b) as ->.
    { assert (Ha : In a (b :: l2))
        by (eapply Permutation_in; [exact P | now left]).
      assert (Hb : In b (a :: l1))
        by (eapply Permutation_in; [symmetry; exact P | now left]).
      rewrite Forall_forall in F1, F2.
      destruct Ha as [-> | Ha]; [reflexivity|].
      destruct Hb as [-> | Hb]; [reflexivity|].
      apply le_antisym; auto. }
    f_equal. apply IH; auto. now apply Permutation_cons_inv in P.
Qed.

Lemma sort_Strings_perm_eq (l1 l2 : list string) :
  Permutation l1 l2 -> sort_Strings l1 = sort_Strings l2.
Proof.
  intros P. apply sorted_perm_unique; try apply sort_Strings_sorted.
  now rewrite <- !sort_Strings_perm.
Qed.

Lemma fold_append_map (A : Type) (f : A -> string) (l : list A)
      (acc : list string) :
  fold_left (fun items x => append_elem items (f x)) l acc
  = (acc ++ map f l)%list.
Proof.
  revert acc. induction l as [|x l IH]; intros acc; simpl.
  - now rewrite app_nil_r.
  - rewrite IH. unfold append_elem. now rewrite <- app_assoc.
Qed.

Lemma renderPair_nonEmpty (kv : string * string) : nonEmpty (renderPair kv).
Proof. apply append_nonEmpty_r. discriminate. Qed.

(** [util.FormatLabels]: "<none>" for the empty map; otherwise the
    rendered pairs in ascending order, joined by commas; the same string
    for every order in which the map is ranged over. *)
Lemma FormatLabels_sorted (labels : list (string * string)) :
  FormatLabels [] = "<none>"
  /\ (labels <> [] ->
      exists items,
        FormatLabels labels = Join items ","
        /\ Permutation items (map renderPair labels)
        /\ StronglySorted le items)
  /\ (forall labels', Permutation labels labels' ->
                      FormatLabels labels = FormatLabels labels')
  /\ FormatLabels [("b", "2"); ("a", "1")] = "a=1,b=2".
Proof.
  split; [reflexivity|]. split; [|split; [|reflexivity]].
  - intros Hne. exists (sort_Strings (map renderPair labels)).
    split; [|split].
    + unfold FormatLabels. rewrite len_eqb_0.
      destruct labels; [congruence|].
      now rewrite (fold_append_map renderPair).
    + symmetry. apply sort_Strings_perm.
    + apply sort_Strings_sorted.
  - intros labels' P. unfold FormatLabels, len.
    rewrite (Permutation_length P).
    destruct (_ =? 0); [reflexivity|].
    rewrite !(fold_append_map renderPair). simpl.
    f_equal. apply sort_Strings_perm_eq. now apply Permutation_map.
Qed.

Lemma Join_cons (x : string) (l : list string) :
  Join (x :: l) "," = x ++ commaTail l.
Proof.
  revert x. induction l as [|y l IH]; intros x.
  - simpl. now rewrite append_empty_r.
  - change (Join (x :: y :: l) ",") with (x ++ "," ++ Join (y :: l) ",").
    now rewrite IH.
Qed.

(** [formatLabels] of the get command joins the rendered pairs in the
    order of the [range], unsorted. *)
Lemma formatLabels_range_order (labels : list (string * string)) :
  labels <> [] -> formatLabels labels = Join (map renderPair labels) ",".
Proof.
  destruct labels as [|kv labels]; [congruence|]. intros _.
  unfold formatLabels. rewrite len_eqb_0.
  cbn [fold_left map]. rewrite Join_cons. cbn [String.eqb negb].
  change ("" ++ (fst kv ++ "=" ++ snd kv)) with (renderPair kv).
  generalize (renderPair_nonEmpty kv). generalize (renderPair kv).
  induction labels as [|kv' labels IH]; intros acc Hacc; simpl.
  - now rewrite append_empty_r.
  - destruct (String.eqb_spec acc ""); [contradiction|]. simpl.
    rewrite IH.
    + unfold renderPair. rewrite !append_assoc. reflexivity.
    + now apply append_nonEmpty_l, append_nonEmpty_l.
Qed.

(** C5: the label formatter of the get command does not sort: for the map
    {"b":"2","a":"1"} ranged over with "b" first it returns "b=2,a=1",
    with "a" first "a=1,b=2"; the formatter of the util package returns
    "a=1,b=2" for both orders, and both return "<none>" for the empty
    map. *)
Theorem formatLabels_unsorted :
  formatLabels [("b", "2"); ("a", "1")] = "b=2,a=1"
  /\ formatLabels [("a", "1"); ("b", "2")] = "a=1,b=2"
  /\ Permutation [("b", "2"); ("a", "1")] [("a", "1"); ("b", "2")]
  /\ FormatLabels [("b", "2"); ("a", "1")] = "a=1,b=2"
  /\ FormatLabels [("a", "1"); ("b", "2")] = "a=1,b=2"
  /\ formatLabels [] = "<none>"
  /\ FormatLabels [] = "<none>".
Proof.
  repeat split; try reflexivity. apply perm_swap.
Qed.

(** ** Non-empty renderings *)

Create HintDb nonempty.

Lemma literal_nonEmpty (c : ascii) (s : string) : nonEmpty (String c s).
Proof. discriminate. Qed.

Lemma string_of_uint_nonEmpty (d : Decimal.uint) :
  nonEmpty (NilZero.string_of_uint d).
Proof. destruct d; discriminate. Qed.

Lemma itoa_nonEmpty (n : Z) : nonEmpty (itoa n).
Proof.
  unfold itoa, NilZero.string_of_int.
  destruct (Z.to_int n); [apply string_of_uint_nonEmpty | discriminate].
Qed.

Lemma btoa_nonEmpty (b : bool) : nonEmpty (btoa b).
Proof. destruct b; discriminate. Qed.

Lemma fmtInt_nonEmpty (buf : string) (v : Z) :
  nonEmpty (Duration.fmtInt buf v).
Proof. apply append_nonEmpty_l, string_of_uint_nonEmpty. Qed.

Lemma Duration_String_nonEmpty (d : Z) : nonEmpty (Duration.String_ d).
Proof.
  unfold Duration.String_, Duration.format.
  destruct (d <? 0); [discriminate|].
  destruct (Z.abs d <? Duration.Second).
  - destruct (Z.abs d =? 0); [discriminate|].
    destruct (if Z.abs d <? Duration.Microsecond then _ else _) as [prec unit].
    destruct (Duration.fmtFrac unit (Z.abs d) prec) as [w u].
    apply fmtInt_nonEmpty.
  - destruct (Duration.fmtFrac "s" (Z.abs d) 9) as [w u].
    destruct (0 <? u / 60); [|apply fmtInt_nonEmpty].
    destruct (0 <? u / 60 / 60); apply fmtInt_nonEmpty.
Qed.

Lemma Join_nonEmpty (l : list string) :
  l <> [] -> Forall nonEmpty l -> nonEmpty (Join l ",").
Proof.
  destruct l as [|x l]; [congruence|]. intros _ H.
  rewrite Join_cons. apply append_nonEmpty_l. now inversion H.
Qed.

Lemma Join_or_nonEmpty (l : list string) (d : string) :
  Forall nonEmpty l -> nonEmpty d ->
  nonEmpty (if 0 <? len l then Join l "," else d).
Proof.
  intros H Hd. rewrite len_pos. destruct l; [exact Hd|].
  now apply Join_nonEmpty.
Qed.

Lemma nonzero_Join_nonEmpty (l : list string) (d : string) :
  Forall nonEmpty l -> nonEmpty d ->
  nonEmpty (if len l =? 0 then d else Join l ",").
Proof.
  intros H Hd. rewrite len_eqb_0. destruct l; [exact Hd|].
  now apply Join_nonEmpty.
Qed.

Lemma append_elem_nonEmpty (acc : list string) (s : string) :
  Forall nonEmpty acc -> nonEmpty s -> Forall nonEmpty (append_elem acc s).
Proof.
  intros H Hs. unfold append_elem. apply Forall_app. split; [exact H|].
  now constructor.
Qed.

Lemma fold_left_invariant (A B : Type) (I : B -> Prop) (P : A -> Prop)
      (g : B -> A -> B) (l : list A) (acc : B) :
  I acc -> Forall P l ->
  (forall acc x, I acc -> P x -> I (g acc x)) ->
  I (fold_left g l acc).
Proof.
  intros Hacc Hl Hg. revert acc Hacc.
  induction Hl as [|x l Hx Hl IH]; intros acc Hacc; simpl; [exact Hacc|].
  apply IH. now apply Hg.
Qed.

Lemma Forall_trivial (A : Type) (l : list A) : Forall (fun _ => True) l.
Proof. induction l; constructor; auto. Qed.

#[local] Hint Resolve literal_nonEmpty itoa_nonEmpty btoa_nonEmpty
  Duration_String_nonEmpty append_nonEmpty_l append_nonEmpty_r
  append_elem_nonEmpty Join_or_nonEmpty nonzero_Join_nonEmpty Forall_nil
  : nonempty.

(** ** Records without empty strings *)

Lemma clean_slice (l : list value) :
  clean (VSlice l) -> Forall clean l.
Proof.
  unfold clean. simpl. rewrite forallb_forall, Forall_forall. auto.
Qed.

Lemma clean_lookup (m : object) (k : string) (v : value) :
  clean (VMap m) -> lookup k m = Some v -> clean v.
Proof.
  unfold clean. simpl. induction m as [|[k' v'] m IH]; simpl; [discriminate|].
  intros H. apply andb_prop in H. destruct H as [H1 H2].
  destruct (String.eqb k k'); [now intros [= <-] | now apply IH].
Qed.

Lemma clean_string (s : string) : clean (VString s) -> nonEmpty s.
Proof.
  unfold clean. simpl. destruct (String.eqb_spec s ""); [discriminate | auto].
Qed.

Lemma clean_nestedFrom (v v' : value) (fields : list string) :
  clean v -> nestedFrom v fields = Found v' -> clean v'.
Proof.
  revert v. induction fields as [|f fields IH]; intros v Hv; simpl.
  - now intros [= <-].
  - destruct v; try discriminate.
    destruct (lookup f m) as [x|] eqn:E; [|discriminate].
    apply IH. eapply clean_lookup; eauto.
Qed.

Lemma clean_NestedString (obj : object) (fields : list string) (s : string) :
  clean (VMap obj) -> NestedString obj fields = Found s -> nonEmpty s.
Proof.
  unfold NestedString, NestedFieldNoCopy, typed. intros H.
  destruct (nestedFrom (VMap obj) fields) as [v| |] eqn:E; try discriminate.
  destruct v; try discriminate. intros [= <-].
  apply clean_string. eapply clean_nestedFrom; eauto.
Qed.

Lemma clean_NestedSlice (obj : object) (fields : list string) (l : list value) :
  clean (VMap obj) -> NestedSlice obj fields = Found l -> Forall clean l.
Proof.
  unfold NestedSlice, NestedFieldNoCopy, typed. intros H.
  destruct (nestedFrom (VMap obj) fields) as [v| |] eqn:E; try discriminate.
  destruct v; try discriminate. intros [= <-].
  apply clean_slice. eapply clean_nestedFrom; eauto.
Qed.

Lemma clean_NestedMap (obj : object) (fields : list string) (m : object) :
  clean (VMap obj) -> NestedMap obj fields = Found m -> clean (VMap m).
Proof.
  unfold NestedMap, NestedFieldNoCopy, typed. intros H.
  destruct (nestedFrom (VMap obj) fields) as [v| |] eqn:E; try discriminate.
  destruct v; try discriminate. intros [= <-].
  eapply clean_nestedFrom; eauto.
Qed.

Lemma clean_asStrings (l : list value) (ss : list string) :
  Forall clean l -> asStrings l = Some ss -> Forall nonEmpty ss.
Proof.
  intros H. revert ss. induction H as [|v l Hv Hl IH]; intros ss; simpl.
  - intros [= <-]. constructor.
  - destruct v; try discriminate.
    destruct (asStrings l) as [ss'|]; [|discriminate].
    intros [= <-]. constructor; [now apply clean_string | now apply IH].
Qed.

Lemma clean_NestedStringSlice (obj : object) (fields : list string)
      (ss : list string) :
  clean (VMap obj) -> NestedStringSlice obj fields = Found ss ->
  Forall nonEmpty ss.
Proof.
  unfold NestedStringSlice, NestedFieldNoCopy, typed. intros H.
  destruct (nestedFrom (VMap obj) fields) as [v| |] eqn:E; try discriminate.
  destruct v; simpl; try discriminate.
  destruct (asStrings l) as [ss'|] eqn:Es; [|discriminate]. intros [= <-].
  eapply clean_asStrings; [|exact Es].
  apply clean_slice. eapply clean_nestedFrom; eauto.
Qed.

Lemma clean_map_entries (m : object) :
  clean (VMap m) -> Forall (fun kv => clean (snd kv)) m.
Proof.
  unfold clean. simpl. rewrite forallb_forall, Forall_forall.
  intros H [k v] Hin. exact (H _ Hin).
Qed.

(** ** The extractors one by one *)

Ltac split_cases :=
  repeat match goal with
         | |- nonEmpty (match ?x with _ => _ end) => destruct x eqn:?
         | |- Forall nonEmpty (match ?x with _ => _ end) => destruct x eqn:?
         end.

Ltac from_record :=
  eauto 7 using clean_string, clean_lookup, clean_NestedString,
    clean_NestedStringSlice with nonempty.

Ltac loop_invariant pred :=
  apply (@fold_left_invariant _ _ (Forall nonEmpty) pred);
  [ try constructor; try assumption
  | try apply Forall_trivial; try assumption
  | let acc := fresh "acc" in
    let x := fresh "x" in
    let Hacc := fresh "Hacc" in
    let Hx := fresh "Hx" in
    intros acc x Hacc Hx ].

Section ExtractorFacts.

Variable tp : string -> string -> option Z.

Lemma extractReadyValue_nonEmpty (obj : object) :
  nonEmpty (extractReadyValue obj).
Proof. unfold extractReadyValue. split_cases; from_record. Qed.

Lemma extractStatusValue_nonEmpty (obj : object) :
  clean (VMap obj) -> nonEmpty (extractStatusValue obj).
Proof. intros H. unfold extractStatusValue. split_cases; from_record. Qed.

Lemma extractRestartsValue_nonEmpty (obj : object) :
  nonEmpty (extractRestartsValue obj).
Proof. unfold extractRestartsValue. split_cases; from_record. Qed.

Lemma extractTypeValue_nonEmpty (obj : object) :
  clean (VMap obj) -> nonEmpty (extractTypeValue obj).
Proof. intros H. unfold extractTypeValue. split_cases; from_record. Qed.

Lemma extractClusterIPValue_nonEmpty (obj : object) :
  clean (VMap obj) -> nonEmpty (extractClusterIPValue obj).
Proof. intros H. unfold extractClusterIPValue. split_cases; from_record. Qed.

Lemma appendIngress_nonEmpty (ips : list string) (ing : value) :
  Forall nonEmpty ips -> clean ing -> Forall nonEmpty (appendIngress ips ing).
Proof. intros H Hc. unfold appendIngress. split_cases; from_record. Qed.

Lemma extractExternalIPValue_nonEmpty (obj : object) :
  clean (VMap obj) -> nonEmpty (extractExternalIPValue obj).
Proof.
  intros H. unfold extractExternalIPValue.
  destruct (NestedSlice obj _) as [ingress| |] eqn:E; [|from_record..].
  destruct (len ingress =? 0); [from_record|].
  apply Join_or_nonEmpty; [|from_record].
  apply fold_left_invariant with (P := clean);
    [constructor | eapply clean_NestedSlice; eauto
     | intros; now apply appendIngress_nonEmpty].
Qed.

Lemma appendPort_grows (ports : list value) (portStrings : list string) :
  Forall nonEmpty portStrings ->
  Forall nonEmpty (fold_left appendPort ports portStrings)
  /\ (portStrings <> [] \/ hasIntegerPort ports = true ->
      fold_left appendPort ports portStrings <> []).
Proof.
  revert portStrings.
  induction ports as [|port ports IH]; intros portStrings H; simpl.
  - split; [exact H|]. intros [K | K]; [exact K | discriminate K].
  - assert (Hstep : Forall nonEmpty (appendPort portStrings port))
      by (unfold appendPort; split_cases; from_record).
    destruct (IH _ Hstep) as [IH1 IH2]. split; [exact IH1|].
    intros K. apply IH2. unfold appendPort.
    destruct port; try (destruct K as [K | K]; [now left | now right]).
    destruct (lookup "port" m) as [v|];
      [|destruct K as [K | K]; [now left | now right]].
    destruct v; try (destruct K as [K | K]; [now left | now right]).
    left. unfold append_elem. now destruct portStrings.
Qed.

Lemma extractPortsValue_nonEmpty (obj : object) :
  portsRenderable obj -> nonEmpty (extractPortsValue obj).
Proof.
  unfold portsRenderable, extractPortsValue.
  destruct (NestedSlice obj _) as [ports| |]; [|from_record..].
  rewrite len_eqb_0. destruct ports as [|port ports]; [from_record|].
  intros [H | H]; [discriminate H|].
  destruct (@appendPort_grows (port :: ports) [] (Forall_nil _)) as [H1 H2].
  apply Join_nonEmpty; [apply H2; now right | exact H1].
Qed.

Lemma int64Or_nonEmpty (obj : object) (fields : list string) (d : string) :
  nonEmpty d -> nonEmpty (int64Or obj fields d).
Proof. intros H. unfold int64Or. split_cases; from_record. Qed.

Lemma extractCompletionsValue_nonEmpty (obj : object) :
  nonEmpty (extractCompletionsValue obj).
Proof. unfold extractCompletionsValue. split_cases; from_record. Qed.

Lemma extractDurationValue_nonEmpty (w : World) (obj : object) :
  nonEmpty (extractDurationValue tp w obj).
Proof. unfold extractDurationValue. split_cases; from_record. Qed.

Lemma extractDataCountValue_nonEmpty (obj : object) :
  nonEmpty (extractDataCountValue obj).
Proof. unfold extractDataCountValue. from_record. Qed.

Lemma firstCapacity_nonEmpty (capacity : object) (s : string) :
  clean (VMap capacity) -> firstCapacity capacity = Some s -> nonEmpty s.
Proof.
  intros H. apply clean_map_entries in H.
  induction H as [|[k v] m Hv Hm IH]; simpl; [discriminate|].
  destruct v; auto.
  - intros [= <-]. now apply clean_string.
  - destruct (lookup "string" m0) as [x|] eqn:E; auto.
    destruct x; auto. intros [= <-].
    eapply clean_string, clean_lookup; eauto.
Qed.

Lemma extractCapacityValue_nonEmpty (obj : object) :
  clean (VMap obj) -> nonEmpty (extractCapacityValue obj).
Proof.
  intros H. unfold extractCapacityValue.
  assert (forall r, (forall m, r = Found m -> clean (VMap m)) ->
                    nonEmpty match r with
                             | Found capacity =>
                                 if len capacity =? 0 then "<unknown>"
                                 else match firstCapacity capacity with
                                      | Some s => s
                                      | None => "<unknown>"
                                      end
                             | _ => "<unknown>"
                             end) as K.
  { intros [m| |] Hr; [|from_record..].
    destruct (len m =? 0); [from_record|].
    destruct (firstCapacity m) eqn:E; [|from_record].
    eapply firstCapacity_nonEmpty; [apply Hr; reflexivity | exact E]. }
  apply K. intros m.
  destruct (NestedMap obj ["spec"; "capacity"]) eqn:E.
  - intros [= <-]. eapply clean_NestedMap; eauto.
  - intros E'. eapply clean_NestedMap; eauto.
  - intros E'. eapply clean_NestedMap; eauto.
Qed.

Lemma extractAccessModesValue_nonEmpty (obj : object) :
  clean (VMap obj) -> nonEmpty (extractAccessModesValue obj).
Proof.
  intros H. unfold extractAccessModesValue.
  assert (forall r, (forall ss, r = Found ss -> Forall nonEmpty ss) ->
                    nonEmpty match r with
                             | Found modes =>
                                 if len modes =? 0 then "<unknown>"
                                 else Join modes ","
                             | _ => "<unknown>"
                             end) as K.
  { intros [ss| |] Hr; [|from_record..].
    apply nonzero_Join_nonEmpty; [now apply Hr | from_record]. }
  apply K. intros ss.
  destruct (NestedStringSlice obj ["spec"; "accessModes"]) eqn:E.
  - intros [= <-]. from_record.
  - intros E'. from_record.
  - intros E'. from_record.
Qed.

Lemma extractClaimValue_nonEmpty (obj : object) :
  clean (VMap obj) -> nonEmpty (extractClaimValue obj).
Proof.
  intros H. unfold extractClaimValue.
  destruct (NestedMap obj _) as [claimRef| |] eqn:E; [|from_record..].
  eapply clean_NestedMap in E; [|exact H]. split_cases; from_record.
Qed.

Lemma extractStorageClassValue_nonEmpty (obj : object) :
  clean (VMap obj) -> nonEmpty (extractStorageClassValue obj).
Proof. intros H. unfold extractStorageClassValue. split_cases; from_record. Qed.

Lemma extractHostsValue_nonEmpty (obj : object) :
  nonEmpty (extractHostsValue obj).
Proof.
  unfold extractHostsValue.
  destruct (NestedSlice obj _) as [rules| |]; [|from_record..].
  destruct (len rules =? 0); [from_record|].
  apply Join_or_nonEmpty; [|from_record].
  loop_invariant (fun _ : value => True).
  split_cases; try assumption.
  apply append_elem_nonEmpty; [assumption|].
  match goal with
  | E : negb (String.eqb ?s "") = true |- _ =>
      destruct (String.eqb_spec s ""); [discriminate E | assumption]
  end.
Qed.

Lemma setKey_nonEmpty (portSet : list string) (k : string) :
  Forall nonEmpty portSet -> nonEmpty k -> Forall nonEmpty (setKey portSet k).
Proof. intros H Hk. unfold setKey. split_cases; from_record. Qed.

Lemma extractIngressPortsValue_nonEmpty (w : World) (obj : object) :
  nonEmpty (extractIngressPortsValue w obj).
Proof.
  unfold extractIngressPortsValue.
  destruct (NestedSlice obj ["spec"; "rules"]) as [rules| |]; [|from_record..].
  destruct (len rules =? 0); [from_record|].
  cbv zeta.
  match goal with
  | |- nonEmpty (if 0 <? len ?s then _ else _) =>
      assert (Forall nonEmpty s) as Hs; [|revert Hs; generalize s]
  end.
  { match goal with
    | |- Forall nonEmpty (match _ with
                          | Found _ => if _ then setKey ?a _ else _
                          | _ => _
                          end) =>
        assert (Forall nonEmpty a) as Ha
    end.
    { loop_invariant (fun _ : value => True).
      split_cases; try assumption.
      loop_invariant (fun _ : value => True).
      apply setKey_nonEmpty; [assumption | from_record]. }
    split_cases; try assumption.
    apply setKey_nonEmpty; [assumption | from_record]. }
  intros portSet Hs. rewrite len_pos.
  destruct portSet as [|p portSet]; [from_record|].
  destruct (rangeReversed w).
  - apply Join_nonEmpty.
    + intros Hr. apply (f_equal (@rev string)) in Hr.
      rewrite rev_involutive in Hr. discriminate Hr.
    + now apply Forall_rev.
  - now apply Join_nonEmpty.
Qed.

Lemma appendPorts_nonEmpty (ipStr : string) (ports : list value)
      (endpoints : list string) :
  Forall nonEmpty endpoints ->
  Forall nonEmpty (appendPorts ipStr ports endpoints).
Proof.
  intros H. unfold appendPorts. loop_invariant (fun _ : value => True).
  split_cases; from_record.
Qed.

Lemma appendAddresses_nonEmpty (addresses ports : list value)
      (endpoints : list string) :
  Forall nonEmpty endpoints ->
  Forall nonEmpty (appendAddresses addresses ports endpoints).
Proof.
  intros H. unfold appendAddresses. loop_invariant (fun _ : value => True).
  split_cases; try assumption. now apply appendPorts_nonEmpty.
Qed.

Lemma extractEndpointsValue_nonEmpty (obj : object) :
  nonEmpty (extractEndpointsValue obj).
Proof.
  unfold extractEndpointsValue.
  destruct (NestedSlice obj _) as [subsets| |]; [|from_record..].
  destruct (len subsets =? 0); [from_record|].
  apply Join_or_nonEmpty; [|from_record].
  loop_invariant (fun _ : value => True).
  split_cases; try assumption. now apply appendAddresses_nonEmpty.
Qed.

Lemma extractSecretsValue_nonEmpty (obj : object) :
  nonEmpty (extractSecretsValue obj).
Proof. unfold extractSecretsValue. split_cases; from_record. Qed.

Lemma formatResourceLimits_nonEmpty (limits : object) (found : bool) :
  nonEmpty (formatResourceLimits limits found).
Proof.
  unfold formatResourceLimits.
  destruct (negb found || (len limits =? 0)); [from_record|].
  apply Join_or_nonEmpty; [|from_record].
  loop_invariant (fun _ : string * value => True).
  split_cases; from_record.
Qed.

Lemma extractHardValue_nonEmpty (obj : object) :
  nonEmpty (extractHardValue obj).
Proof.
  unfold extractHardValue. split_cases; apply formatResourceLimits_nonEmpty.
Qed.

Lemma extractUsedValue_nonEmpty (obj : object) :
  nonEmpty (extractUsedValue obj).
Proof.
  unfold extractUsedValue. split_cases; apply formatResourceLimits_nonEmpty.
Qed.

Lemma selectorPairs_nonEmpty (selector : object) :
  Forall nonEmpty (selectorPairs selector).
Proof.
  unfold selectorPairs. loop_invariant (fun _ : string * value => True).
  split_cases; from_record.
Qed.

Lemma extractPodSelectorValue_nonEmpty (obj : object) :
  nonEmpty (extractPodSelectorValue obj).
Proof.
  unfold extractPodSelectorValue.
  destruct (NestedMap obj _) as [selector| |]; [|from_record..].
  destruct (len selector =? 0); [from_record|].
  apply Join_or_nonEmpty; [apply selectorPairs_nonEmpty | from_record].
Qed.

Lemma extractPolicyTypesValue_nonEmpty (obj : object) :
  clean (VMap obj) -> nonEmpty (extractPolicyTypesValue obj).
Proof.
  intros H. unfold extractPolicyTypesValue.
  destruct (NestedStringSlice obj _) as [types| |] eqn:E; from_record.
Qed.

Lemma extractLastSeenValue_nonEmpty (w : World) (obj : object) :
  nonEmpty (extractLastSeenValue tp w obj).
Proof.
  unfold extractLastSeenValue.
  destruct (match NestedString obj ["lastTimestamp"] with
            | Found lastTimestamp => Some lastTimestamp
            | _ => _
            end); split_cases; from_record.
Qed.

Lemma extractObjectValue_nonEmpty (obj : object) :
  nonEmpty (extractObjectValue obj).
Proof. unfold extractObjectValue. split_cases; from_record. Qed.

Lemma extractNodeSelectorValue_nonEmpty (obj : object) :
  nonEmpty (extractNodeSelectorValue obj).
Proof.
  unfold extractNodeSelectorValue.
  destruct (NestedMap obj _) as [selector| |]; [|from_record..].
  destruct (len selector =? 0); [from_record|].
  apply Join_or_nonEmpty; [apply selectorPairs_nonEmpty | from_record].
Qed.

Lemma extractAllowVolumeExpansionValue_nonEmpty (obj : object) :
  nonEmpty (extractAllowVolumeExpansionValue obj).
Proof. unfold extractAllowVolumeExpansionValue. split_cases; from_record. Qed.

Lemma extractScheduleValue_nonEmpty (obj : object) :
  clean (VMap obj) -> nonEmpty (extractScheduleValue obj).
Proof. intros H. unfold extractScheduleValue. split_cases; from_record. Qed.

Lemma extractSuspendValue_nonEmpty (obj : object) :
  nonEmpty (extractSuspendValue obj).
Proof. unfold extractSuspendValue. split_cases; from_record. Qed.

Lemma extractActiveValue_nonEmpty (obj : object) :
  nonEmpty (extractActiveValue obj).
Proof. unfold extractActiveValue. split_cases; from_record. Qed.

Lemma extractLastScheduleValue_nonEmpty (w : World) (obj : object) :
  nonEmpty (extractLastScheduleValue tp w obj).
Proof. unfold extractLastScheduleValue. split_cases; from_record. Qed.

Lemma extractCreatedAtValue_nonEmpty (w : World) (obj : object) :
  nonEmpty (extractCreatedAtValue tp w obj).
Proof. unfold extractCreatedAtValue. split_cases; from_record. Qed.

#[local] Hint Resolve extractReadyValue_nonEmpty extractStatusValue_nonEmpty
  extractRestartsValue_nonEmpty extractTypeValue_nonEmpty
  extractClusterIPValue_nonEmpty extractExternalIPValue_nonEmpty
  int64Or_nonEmpty extractCompletionsValue_nonEmpty
  extractDurationValue_nonEmpty extractDataCountValue_nonEmpty
  extractCapacityValue_nonEmpty extractAccessModesValue_nonEmpty
  extractClaimValue_nonEmpty extractStorageClassValue_nonEmpty
  extractHostsValue_nonEmpty extractIngressPortsValue_nonEmpty
  extractEndpointsValue_nonEmpty extractSecretsValue_nonEmpty
  extractHardValue_nonEmpty extractUsedValue_nonEmpty
  extractPodSelectorValue_nonEmpty extractPolicyTypesValue_nonEmpty
  extractLastSeenValue_nonEmpty extractObjectValue_nonEmpty
  extractNodeSelectorValue_nonEmpty extractAllowVolumeExpansionValue_nonEmpty
  extractScheduleValue_nonEmpty extractSuspendValue_nonEmpty
  extractActiveValue_nonEmpty extractLastScheduleValue_nonEmpty
  extractCreatedAtValue_nonEmpty extractPortsValue_nonEmpty : nonempty.

(** Every case of the switch yields a non-empty string on a record
    without empty strings, PORT(S) when the ports can be rendered. *)
Lemma specializedExtractor_nonEmpty (name : string)
      (extract : World -> object -> string) (w : World) (obj : object) :
  specializedExtractor tp name = Some extract ->
  (name = "PORT(S)" -> portsRenderable obj) ->
  clean (VMap obj) ->
  nonEmpty (extract w obj).
Proof.
  intros E Hname Hclean. unfold specializedExtractor in E.
  repeat match type of E with
         | (if String.eqb ?n ?s then _ else _) = _ =>
             let e := fresh "e" in
             destruct (String.eqb_spec n s) as [e|];
             [ try pose proof (Hname e); injection E as <-;
               unfold extractUpToDateValue, extractAvailableValue,
                 extractDesiredValue, extractCurrentValue, extractAddressValue;
               solve [auto with nonempty]
             | ]
         | (if String.eqb ?n ?s || String.eqb ?n ?s' then _ else _) = _ =>
             destruct (String.eqb n s || String.eqb n s');
             [ injection E as <-; solve [auto with nonempty] | ]
         end.
  discriminate E.
Qed.

(** ** The engine as a whole *)

(** C1 (as amended): on a record that stores no empty string, every
    column definition, so every column of the registry, is extracted to a
    non-empty string or to the column's default, the column PORT(S) when
    spec.ports is missing, empty or has an entry with an integer port; the
    extraction is a function to strings and has no other outcome. *)
Theorem extraction_nonempty_unless_empty_stored
        (w : World) (obj : object) (c : ColumnDefinition) :
  clean (VMap obj) ->
  (ColName c = "PORT(S)" -> portsRenderable obj) ->
  nonEmpty (ExtractColumnValue tp w obj c)
  \/ ExtractColumnValue tp w obj c = DefaultValue c.
Proof.
  intros Hclean Hname. unfold ExtractColumnValue.
  destruct (String.eqb (JSONPath c) ""); [now right|].
  destruct (specializedExtractor tp (ColName c)) as [extract|] eqn:E.
  - left. eapply specializedExtractor_nonEmpty; eauto.
  - destruct (NestedString obj _) as [val| |] eqn:Ev; [left | now right..].
    eapply clean_NestedString; eauto.
Qed.


(** C8: when status.startTime and status.completionTime hold strings
    that parse, the DURATION of a job is the rendering of the second
    instant minus the first, whatever the clock reads, and "1m30s" when
    they are 90 seconds apart; without a string at status.startTime, or
    with one that does not parse, it is "<unknown>"; the registry's
    DURATION column is extracted by this function. *)
Theorem duration_between_start_and_completion :
  (forall w obj s c t0 t1,
      NestedString obj ["status"; "startTime"] = Found s ->
      NestedString obj ["status"; "completionTime"] = Found c ->
      tp RFC3339 s = Some t0 -> tp RFC3339 c = Some t1 ->
      extractDurationValue tp w obj = Duration.String_ (Duration.Sub t1 t0)
      /\ (forall w', extractDurationValue tp w' obj
                     = extractDurationValue tp w obj)
      /\ (t1 = t0 + 90 * Duration.Second ->
          extractDurationValue tp w obj = "1m30s"))
  /\ (forall w obj,
         found (NestedString obj ["status"; "startTime"]) = false ->
         extractDurationValue tp w obj = "<unknown>")
  /\ (forall w obj s,
         NestedString obj ["status"; "startTime"] = Found s ->
         tp RFC3339 s = None ->
         extractDurationValue tp w obj = "<unknown>")
  /\ (forall w obj,
         ExtractColumnValue tp w obj
           {| ColName := "DURATION"; JSONPath := "status.startTime";
              DefaultValue := "<unknown>" |}
         = extractDurationValue tp w obj).
Proof.
  split; [|split; [|split]].
  - intros w obj s c t0 t1 Hs Hc Ps Pc.
    assert (K : forall w', extractDurationValue tp w' obj
                           = Duration.String_ (Duration.Sub t1 t0)).
    { intros w'. unfold extractDurationValue. now rewrite Hs, Ps, Hc, Pc. }
    split; [apply K|]. split; [intros w'; now rewrite !K|].
    intros ->. rewrite K. unfold Duration.Sub.
    replace (t0 + 90 * Duration.Second - t0) with 90000000000
      by (unfold Duration.Second; lia).
    reflexivity.
  - intros w obj H. unfold extractDurationValue.
    destruct (NestedString obj ["status"; "startTime"]);
      [discriminate H | reflexivity..].
  - intros w obj s Hs Hp. unfold extractDurationValue. now rewrite Hs, Hp.
  - reflexivity.
Qed.

End ExtractorFacts.

(** ** External addresses *)

Lemma fold_appendIngress (ingress : list value) (ips : list string) :
  fold_left appendIngress ingress ips = (ips ++ usableValues ingress)%list.
Proof.
  revert ips. induction ingress as [|ing ingress IH]; intros ips; simpl.
  - now rewrite app_nil_r.
  - rewrite IH. rewrite app_assoc. f_equal.
    unfold appendIngress, ingressValue, append_elem.
    destruct ing; try now rewrite app_nil_r.
    destruct (lookup "ip" m) as [v|].
    + destruct v; simpl; now rewrite ?app_nil_r.
    + destruct (lookup "hostname" m) as [v|]; [|now rewrite app_nil_r].
      destruct v; simpl; now rewrite ?app_nil_r.
Qed.

(** C9, counterexample: the ingress array is there and has no usable
    value, being empty, and the extraction gives "<none>", not
    "<pending>". *)
Lemma empty_ingress_is_none :
  NestedSlice emptyIngress ["status"; "loadBalancer"; "ingress"] = Found []
  /\ usableValues [] = []
  /\ extractExternalIPValue emptyIngress = "<none>"
  /\ ~ present_unusable_is_pending.
Proof.
  repeat split.
  intros H. specialize (H emptyIngress [] eq_refl eq_refl). discriminate H.
Qed.

(** C9 (as amended): with a non-empty ingress array the extraction joins
    by commas what the entries contribute, each its "ip" string when it
    has the key "ip" and else its "hostname" string, and gives "<pending>"
    when none contributes; with no ingress array, or an empty one, it
    gives "<none>"; the single entry {ip:"1.2.3.4"} gives "1.2.3.4", also
    through the typed helper. *)
Theorem external_ip_from_ingress :
  (forall obj,
      extractExternalIPValue obj
      = match NestedSlice obj ["status"; "loadBalancer"; "ingress"] with
        | Found ((_ :: _) as ingress) =>
            match usableValues ingress with
            | [] => "<pending>"
            | (_ :: _) as values => Join values ","
            end
        | Found [] | Absent | Mismatch => "<none>"
        end)
  /\ extractExternalIPValue (ingressOf [VMap [("ip", VString "1.2.3.4")]])
     = "1.2.3.4"
  /\ extractExternalIPValue
       (ingressOf [VMap [("ip", VString "1.2.3.4")];
                   VMap [("hostname", VString "lb.example.com")]])
     = "1.2.3.4,lb.example.com"
  /\ extractExternalIPValue (ingressOf [VMap [("ports", VSlice [])]])
     = "<pending>"
  /\ extractExternalIPValue [("spec", VMap [("type", VString "ClusterIP")])]
     = "<none>"
  /\ GetServiceExternalIP
       {| ExternalIPs := [];
          Ingress := [ {| IP := "1.2.3.4"; Hostname := "" |} ] |}
     = "1.2.3.4".
Proof.
  split; [|repeat split].
  intros obj. unfold extractExternalIPValue.
  destruct (NestedSlice obj _) as [ingress| |]; try reflexivity.
  rewrite len_eqb_0. destruct ingress as [|ing ingress]; [reflexivity|].
  cbv zeta. rewrite fold_appendIngress, len_pos.
  change (([] ++ usableValues (ing :: ingress))%list)
    with (usableValues (ing :: ingress)).
  destruct (usableValues (ing :: ingress)); reflexivity.
Qed.

(** ** Inputs that separate the code from the statements *)

(** C1, counterexample: the STATUS column of pods is extracted from a
    pod whose phase is "" to the empty string, which is not the column's
    default "<unknown>". *)
Lemma blank_phase_passes_through :
  In {| ColName := "STATUS"; JSONPath := "status.phase";
        DefaultValue := "<unknown>" |}
     (GetResourceColumns bytewise_ToLower "pods")
  /\ ExtractColumnValue parseUTC noon blankPhasePod
       {| ColName := "STATUS"; JSONPath := "status.phase";
          DefaultValue := "<unknown>" |}
     = ""
  /\ ~ extraction_nonempty_or_default.
Proof.
  assert (Hin : In {| ColName := "STATUS"; JSONPath := "status.phase";
                      DefaultValue := "<unknown>" |}
                   (GetResourceColumns bytewise_ToLower "pods"))
    by (simpl; tauto).
  split; [exact Hin|]. split; [reflexivity|].
  intros H.
  destruct (H bytewise_ToLower parseUTC noon "pods" blankPhasePod _ Hin)
    as [K | K].
  - now apply K.
  - discriminate K.
Qed.

(** The PORT(S) column joins an empty list when no port entry carries an
    integer: the result is the empty string although the record stores no
    empty string. *)
Lemma ports_without_integer_give_empty_string :
  clean (VMap namedPortService)
  /\ ~ portsRenderable namedPortService
  /\ ExtractColumnValue parseUTC noon namedPortService
       {| ColName := "PORT(S)"; JSONPath := "spec.ports";
          DefaultValue := "<none>" |}
     = "".
Proof.
  split; [reflexivity|]. split; [|reflexivity].
  vm_compute. intros [H | H]; discriminate H.
Qed.


(** ** The statements at concrete inputs *)

Lemma extraction_nonempty_unless_empty_stored_witness :
  clean (VMap webService)
  /\ portsRenderable webService
  /\ (nonEmpty (ExtractColumnValue parseUTC noon webService
                  {| ColName := "PORT(S)"; JSONPath := "spec.ports";
                     DefaultValue := "<none>" |})
      \/ ExtractColumnValue parseUTC noon webService
           {| ColName := "PORT(S)"; JSONPath := "spec.ports";
              DefaultValue := "<none>" |}
         = "<none>").
Proof.
  split; [reflexivity|]. split; [vm_compute; now right|].
  apply (@extraction_nonempty_unless_empty_stored parseUTC noon webService
           {| ColName := "PORT(S)"; JSONPath := "spec.ports";
              DefaultValue := "<none>" |}).
  - reflexivity.
  - intros _. vm_compute. now right.
Defined.

Lemma resolve_total_with_fallback_witness :
  DiscoverGVR bytewise_ToLower bytewise_EqualFold (catalog appsCatalog) "po"
  = ({| Group := ""; Version := "v1"; Resource := "pods" |}, true, None).
Proof.
  apply (proj1 (proj2 (resolve_total_with_fallback
                         bytewise_ToLower bytewise_EqualFold))
           appsCatalog "po").
  intros l r Hl Hr. simpl in Hl. destruct Hl as [<- | []].
  simpl in Hr. destruct Hr as [<- | []]. reflexivity.
Defined.

Lemma columns_for_known_and_unknown_witness :
  GetResourceColumns bytewise_ToLower "widgets"
  = [ {| ColName := "AGE"; JSONPath := "metadata.creationTimestamp";
         DefaultValue := "<unknown>" |} ]
  /\ GetResourceColumns bytewise_ToLower "CronJobs"
     = GetResourceColumns bytewise_ToLower "cronjobs".
Proof.
  destruct (columns_for_known_and_unknown bytewise_ToLower)
    as (Hfold & _ & _ & _ & _ & Hunknown & _).
  split.
  - apply Hunknown. vm_compute. intuition discriminate.
  - apply Hfold. reflexivity.
Defined.

Lemma normalize_aliases_and_plural_witness :
  normalizeResourceType bytewise_ToLower "Deploy" = "deployments"
  /\ normalizeResourceType bytewise_ToLower "Gateway" = "gateways".
Proof.
  destruct (normalize_aliases_and_plural bytewise_ToLower)
    as (Halias & _ & Hother & _).
  split.
  - apply (Halias "Deploy" "deploy" "deployments").
    + vm_compute. tauto.
    + reflexivity.
  - apply (Hother "Gateway"). reflexivity.
Defined.

Lemma defaults_cover_all_but_six_witness :
  (exists d, lookup "cronjobs" defaults = Some d
             /\ Resource d = "cronjobs" /\ Version d = "v1"
             /\ getDefaultGVR "cronjobs" = d)
  /\ lookup "roles" defaults = None
  /\ getDefaultGVR "roles"
     = {| Group := ""; Version := "v1"; Resource := "roles" |}
  /\ In "roles" (keys columns).
Proof.
  destruct defaults_cover_all_but_six as (_ & _ & Hkeys & Hcover).
  split; [|split; [|split]].
  - apply (proj1 (Hcover "cronjobs" ltac:(vm_compute; tauto))).
    vm_compute. intuition discriminate.
  - apply (proj2 (Hcover "roles" ltac:(vm_compute; tauto))).
    vm_compute. tauto.
  - apply (proj2 (Hcover "roles" ltac:(vm_compute; tauto))).
    vm_compute. tauto.
  - apply Hkeys. vm_compute. tauto.
Defined.

Lemma first_parsed_match_wins_witness :
  exists gv,
    ParseGroupVersion "apps/v1" = Some gv
    /\ DiscoverGVR bytewise_ToLower bytewise_EqualFold (catalog appsCatalog)
         "Deploy"
       = (WithResource gv "deployments", true, None).
Proof.
  apply (proj2 (proj2 (first_parsed_match_wins
                         bytewise_ToLower bytewise_EqualFold))
           appsCatalog "Deploy" "apps/v1"
           {| Name := "deployments"; SingularName := "deployment";
              Namespaced := true; ShortNames := ["deploy"] |}).
  - intros l Hl. simpl in Hl. destruct Hl as [<- | []]. simpl. discriminate.
  - reflexivity.
Defined.

Lemma duration_between_start_and_completion_witness :
  extractDurationValue parseUTC noon finishedJob = "1m30s"
  /\ extractDurationValue parseUTC midnight finishedJob
     = extractDurationValue parseUTC noon finishedJob.
Proof.
  destruct (proj1 (duration_between_start_and_completion parseUTC)
              noon finishedJob "2024-01-01T00:00:00Z" "2024-01-01T00:01:30Z"
              1704067200000000000 1704067290000000000
              eq_refl eq_refl eq_refl eq_refl)
    as (_ & Hclock & Hninety).
  split.
  - apply Hninety. reflexivity.
  - apply Hclock.
Defined.


(** * Further properties of the code *)

(** ** Normalization *)

Lemma length_append (a b : string) :
  String.length (a ++ b) = (String.length a + String.length b)%nat.
Proof. induction a as [|x a IH]; simpl; [reflexivity | now rewrite IH]. Qed.

Lemma substring_after (a b : string) :
  substring (String.length a) (String.length b) (a ++ b) = b.
Proof.
  induction a as [|x a IH]; simpl; [|exact IH].
  induction b as [|y b IHb]; simpl; [reflexivity | now rewrite IHb].
Qed.

Lemma HasSuffix_append (a b : string) : HasSuffix (a ++ b) b = true.
Proof.
  unfold HasSuffix. rewrite length_append.
  replace (String.length a + String.length b - String.length b)%nat
    with (String.length a) by lia.
  rewrite substring_after, String.eqb_refl, andb_true_r.
  apply Nat.leb_le. lia.
Qed.

Lemma lowerByte_ascii (c : ascii) :
  (byte_of c <? RuneSelf) = true ->
  (byte_of (lowerByte c) <? RuneSelf) = true
  /\ lowerByte (lowerByte c) = lowerByte c.
Proof.
  destruct c as [[] [] [] [] [] [] [] []]; vm_compute; intros H;
    try discriminate H; split; reflexivity.
Qed.

Lemma lowerASCII_ascii (s : string) :
  isASCII s = true ->
  isASCII (lowerASCII s) = true /\ lowerASCII (lowerASCII s) = lowerASCII s.
Proof.
  induction s as [|c s IH]; simpl; [now split|].
  intros H. apply andb_prop in H. destruct H as [Hc Hs].
  destruct (lowerByte_ascii c Hc) as [H1 H2].
  destruct (IH Hs) as [H3 H4].
  rewrite H1, H2, H3, H4. now split.
Qed.

Lemma isASCII_append (a b : string) :
  isASCII (a ++ b) = isASCII a && isASCII b.
Proof.
  induction a as [|x a IH]; simpl; [reflexivity|].
  now rewrite IH, andb_assoc.
Qed.

Lemma lowerASCII_append (a b : string) :
  lowerASCII (a ++ b) = lowerASCII a ++ lowerASCII b.
Proof. induction a as [|x a IH]; simpl; [reflexivity | now rewrite IH]. Qed.

Section NormalizeFacts.

Variable uL : string -> string.

Local Abbreviation normalize := (normalizeResourceType uL).

(** Whatever the input, the normalized type ends in "s": every alias
    stands for a name that does, and any other input gets the "s" unless
    it has it. *)
Theorem normalize_ends_in_s (s : string) :
  HasSuffix (normalize s) "s" = true /\ nonEmpty (normalize s).
Proof.
  assert (H : HasSuffix (normalize s) "s" = true).
  { unfold normalizeResourceType.
    destruct (lookup (ToLower uL s) aliases) as [c|] eqn:E.
    - apply lookup_In in E. unfold aliases in E. simpl in E.
      repeat (destruct E as [E | E]; [injection E as _ <-; reflexivity|]).
      contradiction.
    - destruct (HasSuffix (ToLower uL s) "s") eqn:Hs; simpl; [exact Hs|].
      apply HasSuffix_append. }
  split; [exact H|].
  intros K. rewrite K in H. discriminate H.
Qed.

(** Normalizing twice: on ASCII input the second pass changes nothing,
    unless the first pass produced one of the aliases "ns", "rs", "ds",
    "sts" by appending "s", as from "n", which goes to "ns" and then to
    "namespaces". *)
Theorem normalize_twice :
  (forall s,
      isASCII s = true ->
      ~ In (normalize s) ["ns"; "rs"; "ds"; "sts"] ->
      normalize (normalize s) = normalize s)
  /\ normalize "n" = "ns"
  /\ normalize (normalize "n") = "namespaces".
Proof.
  split; [|split; reflexivity].
  intros s Hs Hn.
  assert (Hcanon : forall a c, In (a, c) aliases -> normalize c = c).
  { intros a c Hin. unfold aliases in Hin. simpl in Hin.
    repeat (destruct Hin as [Hin | Hin]; [injection Hin as _ <-; reflexivity|]).
    contradiction. }
  remember (normalize s) as r eqn:Er.
  unfold normalizeResourceType in Er.
  destruct (lookup (ToLower uL s) aliases) as [c|] eqn:E.
  - subst r. apply lookup_In in E. eapply Hcanon; eauto.
  - rewrite (ToLower_ascii uL s Hs) in Er.
    destruct (lowerASCII_ascii s Hs) as [Ha Hl].
    assert (Hr : isASCII r = true /\ lowerASCII r = r
                 /\ HasSuffix r "s" = true).
    { destruct (HasSuffix (lowerASCII s) "s") eqn:Hsuf; simpl in Er; subst r.
      - auto.
      - rewrite isASCII_append, lowerASCII_append, Ha, Hl.
        repeat split. apply HasSuffix_append. }
    destruct Hr as (Hr1 & Hr2 & Hr3).
    unfold normalizeResourceType.
    rewrite (ToLower_ascii uL r Hr1), Hr2.
    destruct (lookup r aliases) as [c|] eqn:E2.
    + exfalso. apply lookup_In in E2. unfold aliases in E2. simpl in E2.
      repeat (destruct E2 as [E2 | E2];
              [injection E2 as <- _;
               first [discriminate Hr3 | apply Hn; simpl; tauto]|]).
      contradiction.
    + now rewrite Hr3.
Qed.

End NormalizeFacts.

(** ** The fallback *)

(** The fallback keeps the name: for every input getDefaultGVR returns a
    descriptor of version "v1" whose resource is the input itself. *)
Theorem getDefaultGVR_keeps_name (resourceType : string) :
  Resource (getDefaultGVR resourceType) = resourceType
  /\ Version (getDefaultGVR resourceType) = "v1".
Proof.
  unfold getDefaultGVR.
  destruct (lookup resourceType defaults) as [d|] eqn:E; [|now split].
  apply lookup_In in E. unfold defaults in E. simpl in E.
  repeat (destruct E as [E | E]; [injection E as <- <-; now split|]).
  contradiction.
Qed.

Section FallbackFacts.

Variable uL : string -> string.
Variable uF : string -> string -> bool.

Local Abbreviation normalize := (normalizeResourceType uL).
Local Abbreviation resolve := (DiscoverGVR uL uF).

(** A descriptor that DiscoverGVR reports as cluster-scoped comes from
    the catalog: some listed resource matches the normalized type, is
    declared cluster-scoped and gives the descriptor its name; the
    fallback never reports cluster scope. *)
Theorem cluster_scope_only_from_catalog
        (ls : list APIResourceList) (rt : string) (g : GroupVersionResource)
        (err : option string) :
  resolve (catalog ls) rt = (g, false, err) ->
  exists l r,
    In l ls /\ In r (APIResources l)
    /\ matchesResourceType uF r (normalize rt) = true
    /\ Namespaced r = false
    /\ Resource g = Name r.
Proof.
  unfold DiscoverGVR. simpl. rewrite scanLists_find.
  destruct (find _ (parsedEntries ls)) as [[gv r]|] eqn:E; simpl;
    [|intros [= _ K]; discriminate K].
  intros [= <- Hns _].
  apply find_some in E. destruct E as [Hin Hm].
  apply parsedEntries_In in Hin. destruct Hin as (l & Hl & Hr).
  exists l, r. simpl in *. repeat split; auto.
Qed.

(** Every alias resolves without a catalog entry: with nothing listed,
    an input whose lower-cased form is an alias gets the descriptor that
    the default table holds for the alias's canonical name, namespaced. *)
Theorem alias_resolves_through_defaults (s a c : string) :
  In (a, c) aliases ->
  ToLower uL s = a ->
  exists d,
    lookup c defaults = Some d
    /\ Resource d = c
    /\ resolve (catalog []) s = (d, true, None).
Proof.
  intros Hin Hs. unfold DiscoverGVR, normalizeResourceType. simpl.
  rewrite Hs. unfold aliases in Hin. simpl in Hin.
  repeat (destruct Hin as [Hin | Hin];
          [injection Hin as <- <-; eexists; repeat split; reflexivity|]).
  contradiction.
Qed.

End FallbackFacts.

(** ** The registry *)

Lemma distinct_NoDup (l : list string) : distinct l = true -> NoDup l.
Proof.
  induction l as [|x l IH]; simpl; [constructor|].
  intros H. apply andb_prop in H. destruct H as [H1 H2].
  constructor; [|now apply IH].
  intros Hin. apply negb_true_iff in H1.
  assert (K : existsb (String.eqb x) l = true).
  { apply existsb_exists. exists x. split; [exact Hin | apply String.eqb_refl]. }
  congruence.
Qed.

Lemma registry_tables_well_formed :
  forallb wellFormedColumns (map snd columns) = true.
Proof. vm_compute. reflexivity. Qed.

(** Whatever the type string, the columns the registry answers with are
    at least one, carry pairwise different names, and have non-empty
    names and defaults; the one column with an empty path is named
    OBJECT. *)
Theorem registry_columns_well_formed
        (uL : string -> string) (resourceType : string) (c : ColumnDefinition) :
  GetResourceColumns uL resourceType <> []
  /\ NoDup (map ColName (GetResourceColumns uL resourceType))
  /\ (In c (GetResourceColumns uL resourceType) ->
      nonEmpty (ColName c) /\ nonEmpty (DefaultValue c)
      /\ (JSONPath c = "" -> ColName c = "OBJECT")).
Proof.
  assert (W : wellFormedColumns (GetResourceColumns uL resourceType) = true).
  { unfold GetResourceColumns.
    destruct (lookup (ToLower uL resourceType) columns) as [cols|] eqn:E;
      [|reflexivity].
    apply lookup_In in E.
    pose proof registry_tables_well_formed as T.
    rewrite forallb_forall in T. apply T.
    apply in_map_iff. now exists (ToLower uL resourceType, cols). }
  unfold wellFormedColumns in W.
  apply andb_prop in W. destruct W as [W W3].
  apply andb_prop in W. destruct W as [W1 W2].
  split; [|split].
  - intros K. rewrite K in W1. discriminate W1.
  - now apply distinct_NoDup.
  - intros Hin. rewrite forallb_forall in W3. specialize (W3 c Hin).
    apply andb_prop in W3. destruct W3 as [W3 Wp].
    apply andb_prop in W3. destruct W3 as [Wn Wd].
    repeat split.
    + intros K. rewrite K in Wn. discriminate Wn.
    + intros K. rewrite K in Wd. discriminate Wd.
    + intros K. rewrite K in Wp. simpl in Wp. now apply String.eqb_eq.
Qed.

(** ** Counters *)

Lemma wrap64_range (z : Z) : inRange64 (wrap64 z).
Proof.
  unfold inRange64, wrap64.
  pose proof (Z.mod_pos_bound (z + 2 ^ 63) (2 ^ 64) ltac:(lia)). lia.
Qed.

Lemma wrap64_id (z : Z) : inRange64 z -> wrap64 z = z.
Proof.
  unfold inRange64, wrap64. intros H.
  rewrite Z.mod_small by lia. lia.
Qed.

Lemma wrap64_add (a b : Z) : wrap64 (wrap64 a + b) = wrap64 (a + b).
Proof.
  unfold wrap64. f_equal.
  replace ((a + 2 ^ 63) mod 2 ^ 64 - 2 ^ 63 + b + 2 ^ 63)
    with ((a + 2 ^ 63) mod 2 ^ 64 + b) by lia.
  rewrite Zplus_mod_idemp_l. f_equal. lia.
Qed.

Lemma len_nonneg (A : Type) (l : list A) : 0 <= len l.
Proof. unfold len. lia. Qed.

Lemma len_filter_le (A : Type) (f : A -> bool) (l : list A) :
  len (filter f l) <= len l.
Proof.
  unfold len. apply inj_le. induction l as [|x l IH]; simpl; [lia|].
  destruct (f x); simpl; lia.
Qed.

Lemma ready_loop (cs : list value) (acc : Z) :
  fold_left
    (fun readyCount status =>
       match status with
       | VMap statusMap =>
           match lookup "ready" statusMap with
           | Some (VBool true) => readyCount + 1
           | _ => readyCount
           end
       | _ => readyCount
       end) cs acc
  = acc + len (filter isReadyEntry cs).
Proof.
  revert acc. induction cs as [|c cs IH]; intros acc; simpl.
  - unfold len. simpl. lia.
  - rewrite IH. unfold isReadyEntry at 2.
    destruct c; try reflexivity.
    destruct (lookup "ready" m) as [v|]; try reflexivity.
    destruct v; try reflexivity.
    destruct b; try reflexivity.
    unfold len. cbn [List.length]. lia.
Qed.

(** READY of a pod: with a list at status.containerStatuses the column
    shows how many of its entries are maps with "ready" true, a slash,
    and the length of the list, so never more ready than listed; without
    such a list it shows "0/0". *)
Theorem ready_over_total :
  (forall obj cs,
      NestedSlice obj ["status"; "containerStatuses"] = Found cs ->
      extractReadyValue obj
      = itoa (len (filter isReadyEntry cs)) ++ "/" ++ itoa (len cs)
      /\ 0 <= len (filter isReadyEntry cs) <= len cs)
  /\ (forall obj,
         found (NestedSlice obj ["status"; "containerStatuses"]) = false ->
         extractReadyValue obj = "0/0").
Proof.
  split.
  - intros obj cs H. unfold extractReadyValue. rewrite H, ready_loop.
    split; [reflexivity|].
    split; [apply len_nonneg | apply len_filter_le].
  - intros obj H. unfold extractReadyValue.
    destruct (NestedSlice obj _); [discriminate H | reflexivity..].
Qed.

Lemma restarts_loop (cs : list value) (acc : Z) :
  inRange64 acc ->
  fold_left
    (fun totalRestarts status =>
       match status with
       | VMap statusMap =>
           match lookup "restartCount" statusMap with
           | Some (VInt64 count) => wrap64 (totalRestarts + count)
           | _ => totalRestarts
           end
       | _ => totalRestarts
       end) cs acc
  = wrap64 (acc + sumZ (map restartCountOf cs)).
Proof.
  revert acc. induction cs as [|c cs IH]; intros acc Hacc; simpl.
  - rewrite Z.add_0_r. symmetry. now apply wrap64_id.
  - assert (Skip : forall f,
               fold_left f cs acc = wrap64 (acc + sumZ (map restartCountOf cs)) ->
               restartCountOf c = 0 ->
               fold_left f cs acc
               = wrap64 (acc + (restartCountOf c + sumZ (map restartCountOf cs)))).
    { intros f H ->. exact H. }
    destruct c; try (apply Skip; [now apply IH | reflexivity]).
    unfold restartCountOf at 1.
    destruct (lookup "restartCount" m) as [v|] eqn:E;
      [|rewrite IH by assumption; f_equal; lia].
    destruct v; try (rewrite IH by assumption; f_equal; lia).
    rewrite IH by apply wrap64_range.
    rewrite wrap64_add. f_equal. lia.
Qed.

Lemma sumZ_perm (l l' : list Z) : Permutation l l' -> sumZ l = sumZ l'.
Proof.
  induction 1; simpl; lia.
Qed.

(** RESTARTS of a pod: with a list at status.containerStatuses the
    column shows the sum of the integers under "restartCount" of its
    entries, wrapped to 64 bits, entries without such an integer counting
    for nothing; the order of the entries does not matter; without such a
    list it shows "0". *)
Theorem restarts_sum :
  (forall obj cs,
      NestedSlice obj ["status"; "containerStatuses"] = Found cs ->
      extractRestartsValue obj
      = itoa (wrap64 (sumZ (map restartCountOf cs)))
      /\ (inRange64 (sumZ (map restartCountOf cs)) ->
          extractRestartsValue obj = itoa (sumZ (map restartCountOf cs)))
      /\ (forall obj' cs',
             NestedSlice obj' ["status"; "containerStatuses"] = Found cs' ->
             Permutation cs cs' ->
             extractRestartsValue obj' = extractRestartsValue obj))
  /\ (forall obj,
         found (NestedSlice obj ["status"; "containerStatuses"]) = false ->
         extractRestartsValue obj = "0").
Proof.
  assert (K : forall obj cs,
             NestedSlice obj ["status"; "containerStatuses"] = Found cs ->
             extractRestartsValue obj
             = itoa (wrap64 (sumZ (map restartCountOf cs)))).
  { intros obj cs H. unfold extractRestartsValue. rewrite H.
    rewrite restarts_loop by (unfold inRange64; lia). reflexivity. }
  split.
  - intros obj cs H. split; [now apply K|]. split.
    + intros R. rewrite (K _ _ H). now rewrite wrap64_id.
    + intros obj' cs' H' P. rewrite (K _ _ H), (K _ _ H').
      do 2 f_equal. symmetry. apply sumZ_perm. now apply Permutation_map.
  - intros obj H. unfold extractRestartsValue.
    destruct (NestedSlice obj _); [discriminate H | reflexivity..].
Qed.

(** ** Endpoints *)

Lemma appendPorts_map (ipStr : string) (ports : list value)
      (endpoints : list string) :
  appendPorts ipStr ports endpoints
  = (endpoints
       ++ map (fun p => (ipStr ++ ":" ++ itoa p)%string)
             (somes portNumber ports))%list.
Proof.
  unfold appendPorts. revert endpoints.
  induction ports as [|port ports IH]; intros endpoints; simpl.
  - now rewrite app_nil_r.
  - rewrite IH, map_app, app_assoc. f_equal.
    unfold portNumber, append_elem.
    destruct port; try now rewrite app_nil_r.
    destruct (lookup "port" m) as [v|]; [|now rewrite app_nil_r].
    destruct v; simpl; now rewrite ?app_nil_r.
Qed.

Lemma appendAddresses_flat_map (addresses ports : list value)
      (endpoints : list string) :
  appendAddresses addresses ports endpoints
  = (endpoints
       ++ flat_map (fun ipStr =>
                      map (fun p => (ipStr ++ ":" ++ itoa p)%string)
                          (somes portNumber ports))
                   (somes addressIP addresses))%list.
Proof.
  unfold appendAddresses. revert endpoints.
  induction addresses as [|addr addresses IH]; intros endpoints; simpl.
  - now rewrite app_nil_r.
  - rewrite IH. unfold somes at 3. simpl.
    rewrite flat_map_app, app_assoc. f_equal.
    unfold addressIP.
    destruct addr; try now rewrite app_nil_r.
    destruct (lookup "ip" m) as [v|]; [|now rewrite app_nil_r].
    destruct v; simpl; rewrite ?app_nil_r; try reflexivity.
    apply appendPorts_map.
Qed.

Lemma subsets_loop (subsets : list value) (endpoints : list string) :
  fold_left
    (fun endpoints subset =>
       match subset with
       | VMap subsetMap =>
           match NestedSlice subsetMap ["addresses"],
                 NestedSlice subsetMap ["ports"] with
           | Found addresses, Found ports =>
               if (0 <? len addresses) && (0 <? len ports)
               then appendAddresses addresses ports endpoints
               else endpoints
           | _, _ => endpoints
           end
       | _ => endpoints
       end) subsets endpoints
  = (endpoints ++ endpointPairs subsets)%list.
Proof.
  revert endpoints.
  induction subsets as [|subset subsets IH]; intros endpoints; simpl.
  - now rewrite app_nil_r.
  - rewrite IH, app_assoc. f_equal. unfold subsetPairs.
    destruct subset; try now rewrite app_nil_r.
    destruct (NestedSlice m ["addresses"]) as [addresses| |];
      try now rewrite app_nil_r.
    destruct (NestedSlice m ["ports"]) as [ports| |];
      try (destruct addresses; now rewrite app_nil_r).
    rewrite !len_pos.
    destruct addresses as [|a addresses]; [now rewrite app_nil_r|].
    destruct ports as [|p ports]; [now rewrite app_nil_r|].
    apply appendAddresses_flat_map.
Qed.

(** ENDPOINTS: the column joins by commas, subset after subset, every
    address that has a string "ip" paired as ip:port with every port that
    has an integer "port", addresses outermost; a subset without one of
    the two lists, or with an empty one, gives no pair; without any pair,
    or without a list at subsets, the column shows "<none>". *)
Theorem endpoints_cross_product (obj : object) :
  extractEndpointsValue obj
  = match NestedSlice obj ["subsets"] with
    | Found subsets =>
        match endpointPairs subsets with
        | [] => "<none>"
        | (_ :: _) as pairs => Join pairs ","
        end
    | Absent | Mismatch => "<none>"
    end.
Proof.
  unfold extractEndpointsValue.
  destruct (NestedSlice obj ["subsets"]) as [subsets| |]; try reflexivity.
  rewrite len_eqb_0. destruct subsets as [|subset subsets]; [reflexivity|].
  cbv zeta. rewrite subsets_loop, len_pos.
  change (([] ++ endpointPairs (subset :: subsets))%list)
    with (endpointPairs (subset :: subsets)).
  destruct (endpointPairs (subset :: subsets)); reflexivity.
Qed.

(** ** Ingress ports *)

(** PORTS of an ingress is always one of five strings, and "443" occurs
    in it only when spec.tls is a non-empty list. *)
Theorem ingress_ports_outcomes (w : World) (obj : object) :
  In (extractIngressPortsValue w obj)
     ["<none>"; "80"; "443"; "80,443"; "443,80"]
  /\ (found (NestedSlice obj ["spec"; "tls"]) = false ->
      In (extractIngressPortsValue w obj) ["<none>"; "80"]).
Proof.
  unfold extractIngressPortsValue.
  destruct (NestedSlice obj ["spec"; "rules"]) as [rules| |];
    [|split; intros; simpl; tauto..].
  destruct (len rules =? 0); [split; intros; simpl; tauto|].
  cbv zeta.
  match goal with
  | |- context [match NestedSlice obj ["spec"; "tls"] with
                | Found _ => if _ then setKey ?a _ else _
                | _ => _
                end] =>
      assert (Ha : a = [] \/ a = ["80"]); [|revert Ha; generalize a]
  end.
  { apply (@fold_left_invariant value (list string)
             (fun s => s = [] \/ s = ["80"]) (fun _ => True));
      [now left | apply Forall_trivial|].
    intros acc x Hacc _.
    destruct x; auto. destruct (lookup "http" m) as [v|]; auto.
    destruct v; auto. destruct (lookup "paths" m0) as [v|]; auto.
    destruct v; auto.
    apply (@fold_left_invariant value (list string)
             (fun s => s = [] \/ s = ["80"]) (fun _ => True));
      [exact Hacc | apply Forall_trivial|].
    intros acc' _ [-> | ->] _; now right. }
  intros portSet Hp.
  destruct (NestedSlice obj ["spec"; "tls"]) as [tls| |].
  - split; [|intros K; discriminate K].
    destruct (0 <? len tls), (rangeReversed w), Hp as [-> | ->];
      simpl; tauto.
  - split; intros; destruct (rangeReversed w), Hp as [-> | ->]; simpl; tauto.
  - split; intros; destruct (rangeReversed w), Hp as [-> | ->]; simpl; tauto.
Qed.

(** ** Capacity *)

(** CAPACITY reads status.capacity only when spec.capacity is not a map:
    with a map at spec.capacity the column shows the first string that
    map's range meets, or "<unknown>" when it meets none, whatever the
    record has under status. *)
Theorem capacity_prefers_spec (obj : object) (capacity : object) :
  NestedMap obj ["spec"; "capacity"] = Found capacity ->
  extractCapacityValue obj
  = match firstCapacity capacity with
    | Some s => s
    | None => "<unknown>"
    end
  /\ (forall obj',
         NestedMap obj' ["spec"; "capacity"] = Found capacity ->
         extractCapacityValue obj' = extractCapacityValue obj).
Proof.
  assert (K : forall o, NestedMap o ["spec"; "capacity"] = Found capacity ->
                        extractCapacityValue o
                        = match firstCapacity capacity with
                          | Some s => s
                          | None => "<unknown>"
                          end).
  { intros o H. unfold extractCapacityValue. rewrite H, len_eqb_0.
    now destruct capacity. }
  intros H. split; [now apply K|].
  intros obj' H'. now rewrite (K _ H), (K _ H').
Qed.

(** ** Columns without an extractor of their own *)

Lemma specializedExtractor_none (tp tp' : string -> string -> option Z)
      (name : string) :
  specializedExtractor tp name = None -> specializedExtractor tp' name = None.
Proof.
  unfold specializedExtractor.
  repeat match goal with
         | |- (if ?b then _ else _) = None -> _ =>
             destruct b; [discriminate|]
         end.
  reflexivity.
Qed.

(** A column whose name the switch does not know is read straight from
    the record: the string at its dotted path, else its default, whatever
    the clock and the time parser; AGE is such a column, so it shows the
    creation timestamp as it is written in the record, not a time span. *)
Theorem plain_columns_copy_the_field :
  (forall tp tp' w w' obj c,
      specializedExtractor tp (ColName c) = None ->
      ExtractColumnValue tp w obj c = ExtractColumnValue tp' w' obj c
      /\ (JSONPath c <> "" ->
          ExtractColumnValue tp w obj c
          = match NestedString obj (Split (JSONPath c) ".") with
            | Found val => val
            | Absent | Mismatch => DefaultValue c
            end))
  /\ (forall tp w obj,
         ExtractColumnValue tp w obj
           {| ColName := "AGE"; JSONPath := "metadata.creationTimestamp";
              DefaultValue := "<unknown>" |}
         = match NestedString obj ["metadata"; "creationTimestamp"] with
           | Found val => val
           | Absent | Mismatch => "<unknown>"
           end).
Proof.
  split; [|reflexivity].
  intros tp tp' w w' obj c H. unfold ExtractColumnValue.
  rewrite H, (specializedExtractor_none tp tp' _ H).
  split; [reflexivity|].
  intros Hp. apply String.eqb_neq in Hp. now rewrite Hp.
Qed.

(** ** Durations of jobs still running *)

(** DURATION without a string at status.completionTime is measured to
    the clock: the rendering of now minus the start; with a completion
    string that does not parse it is "<unknown>" although the start
    parses. *)
Theorem duration_of_running_job (tp : string -> string -> option Z) :
  (forall w obj s t0,
      NestedString obj ["status"; "startTime"] = Found s ->
      tp RFC3339 s = Some t0 ->
      found (NestedString obj ["status"; "completionTime"]) = false ->
      extractDurationValue tp w obj
      = Duration.String_ (Duration.Sub (now w) t0))
  /\ (forall w obj s t0 c,
         NestedString obj ["status"; "startTime"] = Found s ->
         tp RFC3339 s = Some t0 ->
         NestedString obj ["status"; "completionTime"] = Found c ->
         tp RFC3339 c = None ->
         extractDurationValue tp w obj = "<unknown>").
Proof.
  split.
  - intros w obj s t0 Hs Hp Hc. unfold extractDurationValue. rewrite Hs, Hp.
    destruct (NestedString obj ["status"; "completionTime"]);
      [discriminate Hc | reflexivity..].
  - intros w obj s t0 c Hs Hp Hc Hpc. unfold extractDurationValue.
    now rewrite Hs, Hp, Hc, Hpc.
Qed.

(** ** The typed helpers *)

(** GetServiceExternalIP looks at the first load-balancer ingress entry
    only: when it has an IP or a hostname that is shown, the IP first,
    whatever entries follow and whatever external IPs are set; otherwise
    the external IPs are joined, and "<none>" is shown when there are
    none. *)
Theorem service_external_ip_first_entry :
  (forall ips first rest,
      IP first <> "" ->
      GetServiceExternalIP {| ExternalIPs := ips; Ingress := first :: rest |}
      = IP first)
  /\ (forall ips first rest,
         IP first = "" -> Hostname first <> "" ->
         GetServiceExternalIP {| ExternalIPs := ips; Ingress := first :: rest |}
         = Hostname first)
  /\ (forall ips ips' first rest rest',
         IP first <> "" \/ Hostname first <> "" ->
         GetServiceExternalIP {| ExternalIPs := ips; Ingress := first :: rest |}
         = GetServiceExternalIP {| ExternalIPs := ips'; Ingress := first :: rest' |})
  /\ (forall ips ingress,
         match ingress with
         | [] => True
         | first :: _ => IP first = "" /\ Hostname first = ""
         end ->
         GetServiceExternalIP {| ExternalIPs := ips; Ingress := ingress |}
         = match ips with [] => "<none>" | _ :: _ => Join ips "," end).
Proof.
  assert (A : forall ips first rest,
             IP first <> "" ->
             GetServiceExternalIP {| ExternalIPs := ips; Ingress := first :: rest |}
             = IP first).
  { intros ips first rest H. unfold GetServiceExternalIP. simpl.
    apply String.eqb_neq in H. now rewrite H. }
  assert (B : forall ips first rest,
             IP first = "" -> Hostname first <> "" ->
             GetServiceExternalIP {| ExternalIPs := ips; Ingress := first :: rest |}
             = Hostname first).
  { intros ips first rest H1 H2. unfold GetServiceExternalIP. simpl.
    apply String.eqb_neq in H2. rewrite H1, H2. reflexivity. }
  split; [exact A|]. split; [exact B|]. split.
  - intros ips ips' first rest rest' H.
    destruct (String.eqb_spec (IP first) "") as [E | E].
    + destruct H as [H | H]; [contradiction|]. now rewrite !B.
    + now rewrite !A.
  - intros ips ingress H. unfold GetServiceExternalIP. simpl.
    rewrite len_pos.
    destruct ingress as [|first rest]; [now destruct ips|].
    destruct H as [-> ->]. simpl. now destruct ips.
Qed.

Lemma itoa_head (n : Z) :
  exists c s, itoa n = String c s /\ c <> "<"%char.
Proof.
  unfold itoa, NilZero.string_of_int.
  destruct (Z.to_int n) as [d | d].
  - destruct d; simpl; eexists _, _; (split; [reflexivity | discriminate]).
  - eexists _, _. split; [reflexivity | discriminate].
Qed.

Lemma renderServicePort_head (port : ServicePort) :
  exists c s, renderServicePort port = String c s /\ c <> "<"%char.
Proof.
  destruct (itoa_head (Port port)) as (c & s & E & Hc).
  unfold renderServicePort. rewrite E.
  destruct (negb (NodePort port =? 0)); simpl; eauto.
Qed.

(** GetServicePorts never returns the empty string, and it returns
    "<none>" exactly when the service has no port. *)
Theorem service_ports_none_iff_empty (ports : list ServicePort) :
  nonEmpty (GetServicePorts ports)
  /\ (GetServicePorts ports = "<none>" <-> ports = [])
  /\ GetServicePorts ports
     = match ports with
       | [] => "<none>"
       | _ :: _ => Join (map renderServicePort ports) ","
       end.
Proof.
  assert (E : GetServicePorts ports
              = match ports with
                | [] => "<none>"
                | _ :: _ => Join (map renderServicePort ports) ","
                end).
  { unfold GetServicePorts. rewrite (fold_append_map renderServicePort).
    simpl. rewrite len_eqb_0. now destruct ports. }
  rewrite E. destruct ports as [|p ports].
  - repeat split; discriminate.
  - rewrite map_cons, Join_cons.
    destruct (renderServicePort_head p) as (c & s & Ep & Hc). rewrite Ep.
    simpl. repeat split; try discriminate.
    intros [= K]. now destruct Hc.
Qed.

Lemma abbreviate_step (modes : list string) (mode : string) :
  (if String.eqb mode ReadWriteOnce then append_elem modes "RWO"
   else if String.eqb mode ReadOnlyMany then append_elem modes "ROX"
   else if String.eqb mode ReadWriteMany then append_elem modes "RWX"
   else if String.eqb mode ReadWriteOncePod then append_elem modes "RWOP"
   else append_elem modes mode)
  = append_elem modes (abbreviate mode).
Proof.
  unfold abbreviate.
  repeat match goal with
         | |- context [String.eqb ?a ?b] => destruct (String.eqb a b)
         end; reflexivity.
Qed.

Lemma fold_left_ext (A B : Type) (f g : B -> A -> B) (l : list A) (acc : B) :
  (forall b a, f b a = g b a) -> fold_left f l acc = fold_left g l acc.
Proof.
  intros H. revert acc. induction l as [|x l IH]; intros acc; simpl;
    [reflexivity | now rewrite H, IH].
Qed.

(** The access modes of a volume and of a claim are shown alike: each
    mode by its code, RWO, ROX, RWX or RWOP, any other mode as it is,
    joined by commas; showing a code again leaves it; no mode at all gives
    the empty string. *)
Theorem access_modes_abbreviated :
  (forall pv, GetPVAccessModes pv
              = Join (map abbreviate (pvAccessModes pv)) ",")
  /\ (forall pvc, GetPVCAccessModes pvc
                  = Join (map abbreviate (pvcAccessModes pvc)) ",")
  /\ (forall pv pvc, pvAccessModes pv = pvcAccessModes pvc ->
                     GetPVAccessModes pv = GetPVCAccessModes pvc)
  /\ (forall mode, abbreviate (abbreviate mode) = abbreviate mode)
  /\ (forall pv, pvAccessModes pv = [] -> GetPVAccessModes pv = "").
Proof.
  assert (A : forall pv, GetPVAccessModes pv
                         = Join (map abbreviate (pvAccessModes pv)) ",").
  { intros pv. unfold GetPVAccessModes. cbv zeta.
    rewrite (fold_left_ext _ (fun modes mode => append_elem modes (abbreviate mode)))
      by apply abbreviate_step.
    now rewrite fold_append_map. }
  assert (B : forall pvc, GetPVCAccessModes pvc
                          = Join (map abbreviate (pvcAccessModes pvc)) ",").
  { intros pvc. unfold GetPVCAccessModes. cbv zeta.
    rewrite (fold_left_ext _ (fun modes mode => append_elem modes (abbreviate mode)))
      by apply abbreviate_step.
    now rewrite fold_append_map. }
  split; [exact A|]. split; [exact B|]. split; [|split].
  - intros pv pvc H. now rewrite A, B, H.
  - intros mode. unfold abbreviate.
    destruct (String.eqb mode ReadWriteOnce) eqn:E1; [reflexivity|].
    destruct (String.eqb mode ReadOnlyMany) eqn:E2; [reflexivity|].
    destruct (String.eqb mode ReadWriteMany) eqn:E3; [reflexivity|].
    destruct (String.eqb mode ReadWriteOncePod) eqn:E4; [reflexivity|].
    now rewrite E1, E2, E3, E4.
  - intros pv H. rewrite A, H. reflexivity.
Qed.

Lemma nodeStatusFrom_find (conditions : list NodeCondition) :
  nodeStatusFrom conditions
  = match find (fun c => String.eqb (condType c) NodeReady) conditions with
    | Some c => if String.eqb (condStatus c) ConditionTrue then "Ready"
                else "NotReady"
    | None => "Unknown"
    end.
Proof.
  induction conditions as [|c conditions IH]; simpl; [reflexivity|].
  destruct (String.eqb (condType c) NodeReady); [reflexivity | exact IH].
Qed.

(** The status of a node is one of Ready, NotReady and Unknown; it is
    decided by the first condition of type Ready, Ready when that
    condition's status is True and NotReady otherwise; it is Unknown
    exactly when no condition has type Ready. *)
Theorem node_status_three_states (node : Node) :
  In (GetNodeStatus node) ["Ready"; "NotReady"; "Unknown"]
  /\ GetNodeStatus node
     = match find (fun c => String.eqb (condType c) NodeReady)
                  (Conditions node) with
       | Some c => if String.eqb (condStatus c) ConditionTrue then "Ready"
                   else "NotReady"
       | None => "Unknown"
       end
  /\ (GetNodeStatus node = "Unknown"
      <-> forall c, In c (Conditions node) -> condType c <> NodeReady).
Proof.
  unfold GetNodeStatus. rewrite nodeStatusFrom_find.
  destruct (find _ (Conditions node)) as [c|] eqn:E.
  - split; [destruct (String.eqb (condStatus c) ConditionTrue); simpl; tauto|].
    split; [reflexivity|].
    apply find_some in E. destruct E as [Hin Hc].
    apply String.eqb_eq in Hc. split.
    + destruct (String.eqb (condStatus c) ConditionTrue); discriminate.
    + intros H. now destruct (H c Hin).
  - split; [simpl; tauto|]. split; [reflexivity|].
    split; [|reflexivity]. intros _ c Hin Hc.
    apply (find_none _ _ E) in Hin. apply String.eqb_eq in Hc. congruence.
Qed.

Lemma substring_all (s : string) : substring 0 (String.length s) s = s.
Proof. induction s as [|c s IH]; simpl; [reflexivity | now rewrite IH]. Qed.

Lemma TrimPrefix_restores (s prefix : string) :
  HasPrefix s prefix = true -> prefix ++ TrimPrefix s prefix = s.
Proof.
  unfold TrimPrefix. intros H. rewrite H. unfold HasPrefix in H.
  revert s H. induction prefix as [|a p IH]; intros s H; simpl.
  - rewrite Nat.sub_0_r. apply substring_all.
  - destruct s as [|b s]; simpl in H; [discriminate|].
    destruct (Ascii.ascii_dec a b) as [<- | ]; [|discriminate].
    simpl. f_equal. now apply IH.
Qed.

Lemma nodeRoleFrom_find (labels : list (string * string)) :
  nodeRoleFrom labels
  = match find (fun kv => isRoleLabel (fst kv)) labels with
    | Some (label, _) => TrimPrefix label rolePrefix
    | None => "<none>"
    end.
Proof.
  induction labels as [|[l v] labels IH]; cbn [nodeRoleFrom find fst];
    [reflexivity|].
  unfold isRoleLabel at 1.
  destruct (HasPrefix l rolePrefix); cbn [andb]; [|exact IH].
  destruct (negb (String.eqb (TrimPrefix l rolePrefix) ""));
    [reflexivity | exact IH].
Qed.

Lemma find_first (A : Type) (f : A -> bool) (before after : list A) (x : A) :
  (forall y, In y before -> f y = false) -> f x = true ->
  find f (before ++ x :: after) = Some x.
Proof.
  intros Hb Hx. induction before as [|y before IH]; simpl.
  - now rewrite Hx.
  - rewrite (Hb y) by now left. apply IH. intros z Hz. apply Hb. now right.
Qed.

(** The role of a node is read off the first label, in the order the
    range visits the labels, that has the role prefix and something after
    it: the role is what follows the prefix in that label, whatever
    labels that name no role come before it and whatever labels come
    after; with no such label the role is "<none>"; so a role that is
    shown is never empty and, put after the prefix, is a label of the
    node. *)
Theorem node_role_from_label (node : Node) :
  GetNodeRole node
  = match find (fun kv => isRoleLabel (fst kv)) (nodeLabels node) with
    | Some (label, _) => TrimPrefix label rolePrefix
    | None => "<none>"
    end
  /\ (forall before label value after,
         nodeLabels node = (before ++ (label, value) :: after)%list ->
         (forall l v, In (l, v) before -> isRoleLabel l = false) ->
         isRoleLabel label = true ->
         rolePrefix ++ GetNodeRole node = label
         /\ nonEmpty (GetNodeRole node))
  /\ ((forall label value, In (label, value) (nodeLabels node) ->
                           isRoleLabel label = false) ->
      GetNodeRole node = "<none>")
  /\ ((exists label value, In (label, value) (nodeLabels node)
                           /\ isRoleLabel label = true) ->
      nonEmpty (GetNodeRole node)
      /\ exists value,
           In (rolePrefix ++ GetNodeRole node, value) (nodeLabels node)).
Proof.
  unfold GetNodeRole. rewrite nodeRoleFrom_find.
  split; [reflexivity|]. split; [|split].
  - intros before label value after E Hb Hr. rewrite E.
    rewrite (@find_first _ (fun kv => isRoleLabel (fst kv)) before after
               (label, value)).
    + unfold isRoleLabel in Hr. apply andb_prop in Hr. destruct Hr as [Hp Hn].
      split; [now apply TrimPrefix_restores|].
      now apply negb_true_iff, String.eqb_neq in Hn.
    + intros [l v] Hin. apply (Hb l v Hin).
    + exact Hr.
  - intros H.
    destruct (find _ (nodeLabels node)) as [[l v]|] eqn:E; [|reflexivity].
    apply find_some in E. destruct E as [Hin Hr]. cbn [fst] in Hr.
    rewrite (H l v Hin) in Hr. discriminate Hr.
  - intros (label & value & Hin & Hr).
    destruct (find _ (nodeLabels node)) as [[l v]|] eqn:E.
    + apply find_some in E. destruct E as [Hin' Hr']. cbn [fst] in Hr'.
      unfold isRoleLabel in Hr'. apply andb_prop in Hr'.
      destruct Hr' as [Hp Hn]. split.
      * now apply negb_true_iff, String.eqb_neq in Hn.
      * exists v. now rewrite TrimPrefix_restores.
    + apply (find_none _ _ E) in Hin. cbn [fst] in Hin. congruence.
Qed.

Lemma wrap32_range (z : Z) : inRange32 (wrap32 z).
Proof.
  unfold inRange32, wrap32.
  pose proof (Z.mod_pos_bound (z + 2 ^ 31) (2 ^ 32) ltac:(lia)). lia.
Qed.

Lemma wrap32_id (z : Z) : inRange32 z -> wrap32 z = z.
Proof.
  unfold inRange32, wrap32. intros H.
  rewrite Z.mod_small by lia. lia.
Qed.

Lemma wrap32_add (a b : Z) : wrap32 (wrap32 a + b) = wrap32 (a + b).
Proof.
  unfold wrap32. f_equal.
  replace ((a + 2 ^ 31) mod 2 ^ 32 - 2 ^ 31 + b + 2 ^ 31)
    with ((a + 2 ^ 31) mod 2 ^ 32 + b) by lia.
  rewrite Zplus_mod_idemp_l. f_equal. lia.
Qed.

Lemma len_cons (A : Type) (x : A) (l : list A) : len (x :: l) = len l + 1.
Proof. unfold len. cbn [List.length]. lia. Qed.

Lemma pod_ready_loop (statuses : list ContainerStatus) (acc : Z) :
  0 <= acc -> acc + len statuses < 2 ^ 31 ->
  fold_left (fun ready status =>
               if Ready status then wrap32 (ready + 1) else ready)
            statuses acc
  = acc + len (filter Ready statuses).
Proof.
  revert acc. induction statuses as [|st statuses IH]; intros acc H0 H;
    cbn [fold_left filter].
  - unfold len. simpl. lia.
  - rewrite len_cons in H. pose proof (len_nonneg statuses).
    destruct (Ready st).
    + rewrite wrap32_id by (unfold inRange32; lia).
      rewrite IH by lia. rewrite len_cons. lia.
    + apply IH; lia.
Qed.

(** The ready containers of a pod: for a pod with fewer than 2^31
    container statuses the count is the number of statuses that are
    ready, between zero and the number of statuses. *)
Theorem pod_ready_count (pod : Pod) :
  len (ContainerStatuses pod) < 2 ^ 31 ->
  GetPodReadyContainers pod = len (filter Ready (ContainerStatuses pod))
  /\ 0 <= GetPodReadyContainers pod <= len (ContainerStatuses pod).
Proof.
  intros H. unfold GetPodReadyContainers.
  rewrite pod_ready_loop by lia. rewrite Z.add_0_l.
  split; [reflexivity|].
  split; [apply len_nonneg | apply len_filter_le].
Qed.

Lemma pod_restarts_loop (statuses : list ContainerStatus) (acc : Z) :
  inRange32 acc ->
  fold_left (fun restarts status => wrap32 (restarts + RestartCount status))
            statuses acc
  = wrap32 (acc + sumZ (map RestartCount statuses)).
Proof.
  revert acc. induction statuses as [|st statuses IH]; intros acc H; simpl.
  - rewrite Z.add_0_r. symmetry. now apply wrap32_id.
  - rewrite IH by apply wrap32_range. rewrite wrap32_add. f_equal. lia.
Qed.

(** The restarts of a pod are the sum of the restart counts of its
    containers wrapped to 32 bits: the sum itself when it fits, and the
    same for every order of the containers. *)
Theorem pod_restarts_sum (pod : Pod) :
  GetPodRestarts pod = wrap32 (sumZ (map RestartCount (ContainerStatuses pod)))
  /\ (inRange32 (sumZ (map RestartCount (ContainerStatuses pod))) ->
      GetPodRestarts pod = sumZ (map RestartCount (ContainerStatuses pod)))
  /\ (forall pod', Permutation (ContainerStatuses pod) (ContainerStatuses pod') ->
                   GetPodRestarts pod' = GetPodRestarts pod).
Proof.
  assert (K : forall p, GetPodRestarts p
                        = wrap32 (sumZ (map RestartCount (ContainerStatuses p)))).
  { intros p. unfold GetPodRestarts.
    rewrite pod_restarts_loop by (unfold inRange32; lia). reflexivity. }
  split; [apply K|]. split.
  - intros H. rewrite K. now apply wrap32_id.
  - intros pod' P. rewrite !K. f_equal. symmetry.
    apply sumZ_perm. now apply Permutation_map.
Qed.

(** ** The arguments of kubectl get *)

(** The arguments built for kubectl start with "get" and the resource
    type and end with "--context" and the context, number between four
    and eleven, and with all namespaces asked for they carry "-A" right
    before the context and do not depend on the namespace. *)
Theorem kubectl_get_args_shape
        (resourceType resourceName outputFormat selector namespace : string)
        (allNamespaces : bool) (context : string) :
  (exists middle,
      buildKubectlGetArgs resourceType resourceName outputFormat selector
                          namespace allNamespaces context
      = ("get" :: resourceType :: middle ++ ["--context"; context])%list
      /\ (List.length middle <= 7)%nat)
  /\ (forall namespace',
         buildKubectlGetArgs resourceType resourceName outputFormat selector
                             namespace true context
         = buildKubectlGetArgs resourceType resourceName outputFormat selector
                               namespace' true context)
  /\ (exists before,
         buildKubectlGetArgs resourceType resourceName outputFormat selector
                             namespace true context
         = (before ++ ["-A"; "--context"; context])%list)
  /\ (namespace <> "" ->
      exists before,
        buildKubectlGetArgs resourceType resourceName outputFormat selector
                            namespace false context
        = (before ++ ["-n"; namespace; "--context"; context])%list).
Proof.
  unfold buildKubectlGetArgs, append_elem. split; [|split; [|split]].
  - exists ((if negb (String.eqb resourceName "") then [resourceName] else [])
            ++ (if negb (String.eqb outputFormat "") then ["-o"; outputFormat]
                else [])
            ++ (if negb (String.eqb selector "") then ["-l"; selector] else [])
            ++ (if allNamespaces then ["-A"]
                else if negb (String.eqb namespace "") then ["-n"; namespace]
                     else []))%list.
    destruct (String.eqb resourceName ""), (String.eqb outputFormat ""),
      (String.eqb selector ""), allNamespaces, (String.eqb namespace "");
      (split; [reflexivity | simpl; lia]).
  - reflexivity.
  - eexists. rewrite <- app_assoc. reflexivity.
  - intros H. apply String.eqb_neq in H. rewrite H. cbn [negb].
    eexists. rewrite <- app_assoc. reflexivity.
Qed.

(** ** The further properties at concrete inputs *)

Lemma FormatLabels_sorted_witness :
  FormatLabels [("tier", "web"); ("app", "shop")]
  = FormatLabels [("app", "shop"); ("tier", "web")]
  /\ exists items,
       FormatLabels [("tier", "web"); ("app", "shop")] = Join items ","
       /\ Permutation items (map renderPair [("tier", "web"); ("app", "shop")])
       /\ StronglySorted le items.
Proof.
  destruct (FormatLabels_sorted [("tier", "web"); ("app", "shop")])
    as (_ & Hsorted & Hperm & _).
  split.
  - apply Hperm. apply perm_swap.
  - apply Hsorted. discriminate.
Defined.

Lemma formatLabels_range_order_witness :
  formatLabels [("tier", "web"); ("app", "shop")] = "tier=web,app=shop".
Proof.
  apply (@formatLabels_range_order [("tier", "web"); ("app", "shop")]).
  discriminate.
Defined.

Lemma normalize_twice_witness :
  normalizeResourceType bytewise_ToLower
    (normalizeResourceType bytewise_ToLower "Widget")
  = normalizeResourceType bytewise_ToLower "Widget".
Proof.
  apply (proj1 (normalize_twice bytewise_ToLower) "Widget").
  - reflexivity.
  - vm_compute. intuition discriminate.
Defined.

Lemma cluster_scope_only_from_catalog_witness :
  exists l r,
    In l coreCatalog /\ In r (APIResources l)
    /\ matchesResourceType bytewise_EqualFold r
         (normalizeResourceType bytewise_ToLower "no") = true
    /\ Namespaced r = false
    /\ Resource {| Group := ""; Version := "v1"; Resource := "nodes" |}
       = Name r.
Proof.
  apply (@cluster_scope_only_from_catalog bytewise_ToLower bytewise_EqualFold
           coreCatalog "no" _ None).
  reflexivity.
Defined.

Lemma alias_resolves_through_defaults_witness :
  exists d,
    lookup "deployments" defaults = Some d
    /\ Resource d = "deployments"
    /\ DiscoverGVR bytewise_ToLower bytewise_EqualFold (catalog []) "Deploy"
       = (d, true, None).
Proof.
  apply (@alias_resolves_through_defaults bytewise_ToLower bytewise_EqualFold
           "Deploy" "deploy" "deployments").
  - vm_compute. tauto.
  - reflexivity.
Defined.

Lemma registry_columns_well_formed_witness :
  nonEmpty "OBJECT" /\ nonEmpty "<unknown>" /\ ("" = "" -> "OBJECT" = "OBJECT").
Proof.
  apply (proj2 (proj2 (@registry_columns_well_formed bytewise_ToLower "Events"
                         {| ColName := "OBJECT"; JSONPath := "";
                            DefaultValue := "<unknown>" |}))).
  vm_compute. tauto.
Defined.

Lemma ready_over_total_witness :
  extractReadyValue runningPod = "2/3".
Proof.
  destruct (proj1 ready_over_total runningPod _ eq_refl) as [H _].
  exact H.
Defined.

Lemma restarts_sum_witness :
  extractRestartsValue runningPod = "5".
Proof.
  destruct (proj1 restarts_sum runningPod _ eq_refl) as (_ & H & _).
  apply H. vm_compute. split; [discriminate | reflexivity].
Defined.

Lemma ingress_ports_outcomes_witness :
  In (extractIngressPortsValue noon plainIngress) ["<none>"; "80"].
Proof.
  apply (proj2 (ingress_ports_outcomes noon plainIngress)). reflexivity.
Defined.

Lemma capacity_prefers_spec_witness :
  extractCapacityValue specVolume = "10Gi"
  /\ extractCapacityValue otherStatusVolume = extractCapacityValue specVolume.
Proof.
  destruct (@capacity_prefers_spec specVolume [("storage", VString "10Gi")]
              eq_refl) as [H1 H2].
  split; [exact H1|]. apply H2. reflexivity.
Defined.

Lemma plain_columns_copy_the_field_witness :
  ExtractColumnValue parseUTC noon warningEvent
    {| ColName := "REASON"; JSONPath := "reason"; DefaultValue := "<unknown>" |}
  = ExtractColumnValue (fun _ _ => None) midnight warningEvent
      {| ColName := "REASON"; JSONPath := "reason"; DefaultValue := "<unknown>" |}.
Proof.
  destruct (proj1 plain_columns_copy_the_field parseUTC (fun _ _ => None)
              noon midnight warningEvent
              {| ColName := "REASON"; JSONPath := "reason";
                 DefaultValue := "<unknown>" |} eq_refl) as [H _].
  exact H.
Defined.

Lemma duration_of_running_job_witness :
  extractDurationValue parseUTC noon runningJob = "12h0m0s".
Proof.
  apply (proj1 (duration_of_running_job parseUTC) noon runningJob
           "2024-01-01T00:00:00Z" 1704067200000000000);
    reflexivity.
Defined.

Lemma service_external_ip_first_entry_witness :
  GetServiceExternalIP
    {| ExternalIPs := ["192.0.2.1"];
       Ingress := [ {| IP := ""; Hostname := "lb.example.com" |};
                    {| IP := "203.0.113.9"; Hostname := "" |} ] |}
  = "lb.example.com".
Proof.
  apply (proj1 (proj2 service_external_ip_first_entry)).
  - reflexivity.
  - simpl. discriminate.
Defined.

Lemma service_ports_none_iff_empty_witness :
  GetServicePorts [] = "<none>".
Proof.
  apply (proj2 (proj1 (proj2 (service_ports_none_iff_empty [])))).
  reflexivity.
Defined.

Lemma access_modes_abbreviated_witness :
  GetPVAccessModes {| pvAccessModes := ["ReadWriteOnce"; "ReadOnlyMany"];
                      ClaimRef := None; pvStorageClassName := "" |}
  = GetPVCAccessModes {| pvcAccessModes := ["ReadWriteOnce"; "ReadOnlyMany"];
                         pvcStorageClassName := None |}.
Proof.
  apply (proj1 (proj2 (proj2 access_modes_abbreviated))). reflexivity.
Defined.

Lemma node_status_three_states_witness :
  GetNodeStatus {| nodeLabels := [];
                   Conditions := [ {| condType := "DiskPressure";
                                      condStatus := "False" |} ] |}
  = "Unknown".
Proof.
  apply (proj2 (proj2 (proj2 (node_status_three_states
                                {| nodeLabels := [];
                                   Conditions := [ {| condType := "DiskPressure";
                                                      condStatus := "False" |} ] |})))).
  intros c [<- | []]. simpl. discriminate.
Defined.

Lemma node_role_from_label_witness :
  rolePrefix ++ GetNodeRole controlPlane
  = "node-role.kubernetes.io/control-plane"
  /\ nonEmpty (GetNodeRole controlPlane).
Proof.
  apply (proj1 (proj2 (node_role_from_label controlPlane))
           [("kubernetes.io/hostname", "cp-1")]
           "node-role.kubernetes.io/control-plane" ""
           [("node-role.kubernetes.io/master", "")]).
  - reflexivity.
  - intros l v [[= <- <-] | []]. reflexivity.
  - reflexivity.
Defined.

Lemma pod_ready_count_witness :
  GetPodReadyContainers threeContainers = 2
  /\ 0 <= GetPodReadyContainers threeContainers <= 3.
Proof.
  apply (@pod_ready_count threeContainers). reflexivity.
Defined.

Lemma pod_restarts_sum_witness :
  GetPodRestarts threeContainers = 5.
Proof.
  apply (proj1 (proj2 (pod_restarts_sum threeContainers))).
  vm_compute. split; [discriminate | reflexivity].
Defined.

Lemma kubectl_get_args_shape_witness :
  exists before,
    buildKubectlGetArgs "pods" "" "wide" "" "kube-system" false "cluster1"
    = (before ++ ["-n"; "kube-system"; "--context"; "cluster1"])%list.
Proof.
  apply (proj2 (proj2 (proj2 (kubectl_get_args_shape
                                "pods" "" "wide" "" "kube-system" false
                                "cluster1")))).
  discriminate.
Defined.
